(** * radar_script.py: NEXRAD frame selection, rendering loop and GIF assembly

    A shallow embedding of [src/radar_script.py].  The script is a linear
    pipeline: list the remote keys of one station and day, keep the latest
    five, fetch / decode / render each of them to a PNG, then open the PNGs,
    bring them to one size and save them as a looping GIF.

    The remote bucket, the radar decoder, the plotting stack and the image
    codec are libraries; they appear here as a [World] of oracles whose
    results the script threads through.  Everything the script itself decides
    (filter, sort, slice, path names, the order of the frame list, the resize
    policy, the arguments of the final save, the place where an exception
    escapes) is modelled as written.  Of the GIF writer the model keeps what
    shows in the file: a frame equal to the one before it is not written
    again, its display time goes to the frame before; and a save can raise,
    before or after the file was opened for writing. *)

From Stdlib Require Import ZArith String Ascii List Sorted Permutation Lia Bool.
From stdpp Require Import gmap strings.
Import ListNotations.

Local Open Scope string_scope.
Local Open Scope list_scope.

(** ** Configuration (lines 19-22) *)

Definition FOLDER : string := "nexrad".
Definition GIF_FILENAME : string := "radar_loop.gif".
Definition BASE_URL : string := "https://unidata-nexrad-level3.s3.amazonaws.com/".
Definition STATION : string := "MOB_N0B".

(** ** Python built-ins used by the script *)

Module Py.

(** [str.startswith]: [startswith s p] is Python's [s.startswith(p)]. *)
Definition startswith (s p : string) : bool := String.prefix p s.

(** Order of [str] values: by code unit, shorter prefix first. *)
Definition str_le (a b : string) : Prop := String.leb a b = true.

(** [sorted(l)] on a list of strings, as an insertion sort.  [x] stops in
    front of the first element that is not smaller, so the sort is stable, as
    Python's is. *)
Fixpoint insert_sorted (x : string) (l : list string) : list string :=
  match l with
  | [] => [x]
  | y :: l' => if String.leb x y then x :: y :: l' else y :: insert_sorted x l'
  end.

Fixpoint sorted_from_right (l : list string) : list string :=
  match l with
  | [] => []
  | x :: l' => insert_sorted x (sorted_from_right l')
  end.

Definition sorted (l : list string) : list string := sorted_from_right l.

(** The slice [l[-n:]] for a literal [n >= 1]: the last [n] elements, or the
    whole list when it is shorter. *)
Definition last_slice {A : Type} (n : nat) (l : list A) : list A :=
  skipn (List.length l - n) l.

(** The slice [l[::-1]]. *)
Definition reversed_slice {A : Type} (l : list A) : list A := rev l.

(** [s.split('/')[-1]]: what follows the last slash ([s] itself when it has
    none).  [acc] is the component read so far. *)
Fixpoint last_component_from (s acc : string) : string :=
  match s with
  | EmptyString => acc
  | String c s' =>
      if Ascii.eqb c "/"%char then last_component_from s' EmptyString
      else last_component_from s' (acc +:+ String c EmptyString)
  end.

Definition split_slash_last (s : string) : string := last_component_from s EmptyString.

(** [s.endswith('/')]. *)
Fixpoint endswith_slash (s : string) : bool :=
  match s with
  | EmptyString => false
  | String c EmptyString => Ascii.eqb c "/"%char
  | String _ s' => endswith_slash s'
  end.

(** [os.path.join(a, b)] of posixpath. *)
Definition os_path_join (a b : string) : string :=
  if startswith b "/" then b
  else if (String.eqb a EmptyString || endswith_slash a)%bool then a +:+ b
  else a +:+ "/" +:+ b.

End Py.

(** ** Key selection (lines 38-44) *)

Definition key_prefix (utc_date : string) : string := STATION +:+ "_" +:+ utc_date.

Definition index_url (utc_date : string) : string :=
  BASE_URL +:+ "?prefix=" +:+ key_prefix utc_date.

(** [texts] are the texts of the [key] elements of the listing, in document
    order. *)
Definition matching_keys (utc_date : string) (texts : list string) : list string :=
  List.filter (fun k => Py.startswith k (key_prefix utc_date)) texts.

Definition select_keys (utc_date : string) (texts : list string) : list string :=
  Py.last_slice 5 (Py.sorted (matching_keys utc_date texts)).

(** ** Exceptions

    The script has no [try]; an exception raised by any call ends the run.
    [LibraryError] stands for whatever a library call raises on its own
    (a connection error, a decoder error, a plotting error, ...). *)

Inductive exn : Type :=
| IndexError
| OverflowError
| FileNotFoundError (path : string)
| FileExistsError (path : string)
| UnidentifiedImageError (path : string)
| HTTPError (url : string)
| LibraryError (what : string).

(** ** [datetime] and [timedelta] (lines 98-99)

    A naive [datetime] is kept as its proleptic Gregorian ordinal
    ([toordinal()], day 1 is 0001-01-01) and its time of day.  Subtraction of
    a [timedelta] is the one of the standard library: both operands become
    normalised [timedelta]s, are added, and the result is rejected when the
    day leaves [1 .. MAXORDINAL]. *)

Module Datetime.

Local Open Scope Z_scope.

Record datetime : Type := mk_datetime {
  ordinal : Z;
  hour : Z;
  minute : Z;
  second : Z;
  microsecond : Z
}.

Record timedelta : Type := mk_timedelta {
  days : Z;
  seconds : Z;
  microseconds : Z
}.

Definition MAXORDINAL : Z := 3652059.

(** The normalising constructor: [0 <= seconds < 86400] and
    [0 <= microseconds < 1000000] afterwards (floor division, as [divmod]). *)
Definition timedelta_of (d s us : Z) : timedelta :=
  let s' := s + us / 1000000 in
  {| days := d + s' / 86400; seconds := s' mod 86400; microseconds := us mod 1000000 |}.

Definition timedelta_hours (h : Z) : timedelta := timedelta_of 0 (h * 3600) 0.

Definition timedelta_neg (t : timedelta) : timedelta :=
  timedelta_of (- days t) (- seconds t) (- microseconds t).

Definition timedelta_add (a b : timedelta) : timedelta :=
  timedelta_of (days a + days b) (seconds a + seconds b) (microseconds a + microseconds b).

(** [dt + other]. *)
Definition datetime_add (dt : datetime) (other : timedelta) : exn + datetime :=
  let delta :=
    timedelta_add
      (timedelta_of (ordinal dt) (hour dt * 3600 + minute dt * 60 + second dt) (microsecond dt))
      other in
  let hour' := seconds delta / 3600 in
  let rem := seconds delta mod 3600 in
  let minute' := rem / 60 in
  let second' := rem mod 60 in
  if ((0 <? days delta) && (days delta <=? MAXORDINAL))%bool
  then inr {| ordinal := days delta; hour := hour'; minute := minute';
              second := second'; microsecond := microseconds delta |}
  else inl OverflowError.

(** [dt - other] is [dt + (-other)]. *)
Definition datetime_sub (dt : datetime) (other : timedelta) : exn + datetime :=
  datetime_add dt (timedelta_neg other).

(** What a [datetime] object guarantees about its fields. *)
Definition well_formed (dt : datetime) : Prop :=
  1 <= ordinal dt <= MAXORDINAL /\ 0 <= hour dt < 24 /\ 0 <= minute dt < 60 /\
  0 <= second dt < 60 /\ 0 <= microsecond dt < 1000000.


End Datetime.

Import Datetime.

(** Line 99: [cdt_dt = utc_dt - timedelta(hours=5)]. *)
Definition cdt_of_utc (utc_dt : datetime) : exn + datetime :=
  datetime_sub utc_dt (timedelta_hours 5).

(** ** Images and files *)

(** The resampling filters of PIL. *)
Inductive Resampling : Type := NEAREST | LANCZOS | BILINEAR | BICUBIC | BOX | HAMMING.

#[global] Instance Resampling_eq_dec : EqDecision Resampling.
Proof. solve_decision. Defined.

(** An opened image: the file it was read from, its pixel size (width,
    height), the [resize] calls it went through, oldest first, and those
    among them that resampled the pixels. *)
Record Image : Type := mk_Image {
  origin : string;
  size : nat * nat;
  resizes : list ((nat * nat) * Resampling);
  resampled : list ((nat * nat) * Resampling)
}.

(** [img.resize(sz, flt)].  When the image already has the size asked for,
    PIL returns a copy: the call is made, the pixels are the same. *)
Definition resize (img : Image) (sz : nat * nat) (flt : Resampling) : Image :=
  {| origin := origin img; size := sz; resizes := resizes img ++ [(sz, flt)];
     resampled := if decide (size img = sz) then resampled img
                  else resampled img ++ [(sz, flt)] |}.

(** What [save(..., save_all=True, append_images=..., duration=, loop=)] is given. *)
Record Animation : Type := mk_Animation {
  frames : list Image;
  duration : nat;
  loop : nat
}.

(** An animation as it is in a GIF file: the frames a viewer is shown, each
    with its display time in milliseconds, and the loop count. *)
Record Gif : Type := mk_Gif {
  shown : list (Image * nat);
  loops : nat
}.

(** A file of the working directory: a frame written by [savefig], carrying
    its timestamp label and pixel size; an animation; or what a save that
    raised half way left behind, which is no image. *)
Inductive file : Type :=
| PngFile (label : datetime) (sz : nat * nat)
| GifFile (g : Gif)
| PartialFile.

(** The size [Image.open] reports for a file. *)
Definition file_size (f : file) : nat * nat :=
  match f with
  | PngFile _ sz => sz
  | GifFile g => match shown g with (i, _) :: _ => size i | [] => (0, 0)%nat end
  | PartialFile => (0, 0)%nat
  end.

(** ** The outside world *)

(** A decoded scan, as far as the script looks into it: [radar.time['units']]. *)
Record Radar : Type := mk_Radar { time_units : string }.

(** How a call of [save] ends: the file is written; or the file could not be
    opened for writing and nothing changed; or the file was opened, which
    empties it, and the encoder raised. *)
Inductive SaveOutcome : Type :=
| Saved
| NotOpened (e : exn)
| Broken (e : exn).

Record World : Type := mk_World {
  (** [requests.get(url)] followed by [raise_for_status()]: the body, or the
      exception.  The answer may depend on the requests made before. *)
  http_get : list string -> string -> exn + string;
  (** The texts of the [key] elements BeautifulSoup finds in a listing. *)
  key_texts : string -> list string;
  (** [pyart.io.read_nexrad_level3] on the fetched bytes. *)
  read_nexrad_level3 : string -> exn + Radar;
  (** Lines 70-93: figure, [plot_ppi_map], features and colour bar. *)
  plot_ppi_map : Radar -> option exn;
  (** Lines 97-98: the text after "since", stripped, without Z, through
      [datetime.fromisoformat]. *)
  parse_units : string -> exn + datetime;
  (** Lines 103-111: label overlay and [savefig]; the pixel size of the PNG
      that was written. *)
  savefig : Radar -> datetime -> exn + (nat * nat);
  (** Whether two frames that do not come from the same pixels by
      construction have equal pixels all the same (two files with the same
      picture). *)
  same_pixels : Image -> Image -> bool;
  (** How [save] ends on given arguments. *)
  gif_save : Animation -> SaveOutcome
}.

(** The state a run acts on: the regular files, and the URLs requested so
    far.  Directories are not kept: a path that is bound is a regular file. *)
Record State : Type := mk_State {
  fs : gmap string file;
  requests : list string
}.

(** ** Computations that may raise *)

Definition M (A : Type) : Type := State -> (exn + A) * State.

Definition ret {A : Type} (a : A) : M A := fun st => (inr a, st).

Definition raise {A : Type} (e : exn) : M A := fun st => (inl e, st).

Definition bind {A B : Type} (c : M A) (k : A -> M B) : M B :=
  fun st =>
    match c st with
    | (inr a, st') => k a st'
    | (inl e, st') => (inl e, st')
    end.

Notation "x <-- c ;; k" := (bind c (fun x => k))
  (at level 100, c at next level, right associativity).

(** A library result enters the run: a value, or its exception raised. *)
Definition lift {A : Type} (r : exn + A) : M A :=
  match r with
  | inr a => ret a
  | inl e => raise e
  end.

Definition request (w : World) (url : string) : M string :=
  fun st =>
    (http_get w (requests st) url,
     {| fs := fs st; requests := requests st ++ [url] |}).

(** The file [savefig] leaves once it has succeeded. *)
Definition write_file (path : string) (f : file) : M unit :=
  fun st => (inr tt, {| fs := <[path := f]> (fs st); requests := requests st |}).

(** Line 31, [os.makedirs(path, exist_ok=True)]: nothing to do when the
    directory is there, [FileExistsError] when the path is a regular file. *)
Definition makedirs_exist_ok (path : string) : M unit :=
  fun st =>
    match fs st !! path with
    | Some _ => (inl (FileExistsError path), st)
    | None => (inr tt, st)
    end.

(** [Image.open(filename)]. *)
Definition Image_open (filename : string) : M Image :=
  fun st =>
    match fs st !! filename with
    | Some PartialFile => (inl (UnidentifiedImageError filename), st)
    | Some f =>
        (inr {| origin := filename; size := file_size f; resizes := [];
                resampled := [] |}, st)
    | None => (inl (FileNotFoundError filename), st)
    end.

(** ** The GIF writer *)

(** The test the writer makes of a frame against the last frame it kept:
    equal pixels.  Two images read from one file and resampled alike are
    equal; for the others the world knows. *)
Definition same_frame (w : World) (i j : Image) : bool :=
  (bool_decide (origin i = origin j /\ size i = size j /\ resampled i = resampled j)
   || same_pixels w i j)%bool.

(** The frames written after [prev], which is shown for [ms] so far: a frame
    equal to [prev] adds its display time [d] to it and is dropped. *)
Fixpoint encode_from (w : World) (prev : Image) (ms : nat) (rest : list Image) (d : nat)
  : list (Image * nat) :=
  match rest with
  | [] => [(prev, ms)]
  | i :: rest' =>
      if same_frame w prev i then encode_from w prev (ms + d) rest' d
      else (prev, ms) :: encode_from w i d rest' d
  end.

Definition encode (w : World) (a : Animation) : Gif :=
  match frames a with
  | [] => {| shown := []; loops := loop a |}
  | first :: others =>
      {| shown := encode_from w first (duration a) others (duration a);
         loops := loop a |}
  end.

(** [a.frames[0].save(path, save_all=True, append_images=a.frames[1:],
    duration=a.duration, loop=a.loop)].  A save that raises after the file
    was opened leaves a file without image where there was a file, and no
    file where there was none. *)
Definition save (w : World) (path : string) (a : Animation) : M unit :=
  fun st =>
    match gif_save w a with
    | Saved =>
        (inr tt, {| fs := <[path := GifFile (encode w a)]> (fs st);
                    requests := requests st |})
    | NotOpened e => (inl e, st)
    | Broken e =>
        (inl e,
         {| fs := match fs st !! path with
                  | Some _ => <[path := PartialFile]> (fs st)
                  | None => fs st
                  end;
            requests := requests st |})
    end.

(** ** The per-key loop (lines 58-114) *)

Definition file_url (key : string) : string := BASE_URL +:+ key.

(** Line 110. *)
Definition out_png_of (key : string) : string :=
  Py.os_path_join FOLDER (Py.split_slash_last key +:+ "_mercator.png").

(** One iteration of [for key in keys]: the path appended to [png_files]. *)
Definition process_key (w : World) (key : string) : M string :=
  content <-- request w (file_url key) ;;
  radar <-- lift (read_nexrad_level3 w content) ;;
  _ <-- lift (match plot_ppi_map w radar with Some e => inl e | None => inr tt end) ;;
  utc_dt <-- lift (parse_units w (time_units radar)) ;;
  cdt_dt <-- lift (cdt_of_utc utc_dt) ;;
  sz <-- lift (savefig w radar cdt_dt) ;;
  _ <-- write_file (out_png_of key) (PngFile cdt_dt sz) ;;
  ret (out_png_of key).

Fixpoint process_keys (w : World) (keys : list string) (png_files : list string)
  : M (list string) :=
  match keys with
  | [] => ret png_files
  | key :: keys' =>
      out_png <-- process_key w key ;;
      process_keys w keys' (png_files ++ [out_png])
  end.

(** ** GIF assembly (lines 119-139) *)

(** The loop of lines 123-131, with its two variables [base_size] and
    [images]. *)
Fixpoint open_frames (png_files : list string) (base_size : option (nat * nat))
    (images : list Image) : M (list Image) :=
  match png_files with
  | [] => ret images
  | filename :: png_files' =>
      img <-- Image_open filename ;;
      match base_size with
      | None => open_frames png_files' (Some (size img)) (images ++ [img])
      | Some bs => open_frames png_files' (Some bs) (images ++ [resize img bs BILINEAR])
      end
  end.

(** Lines 123-139 on a given list of paths: [images[0]] raises [IndexError]
    on the empty list, before [save] is reached. *)
Definition assemble (w : World) (png_files : list string) : M unit :=
  images <-- open_frames png_files None [] ;;
  match images with
  | [] => raise IndexError
  | first :: others =>
      save w GIF_FILENAME {| frames := first :: others; duration := 800; loop := 0 |}
  end.

(** Lines 119-139: the reversal of line 121, then the assembly. *)
Definition create_gif (w : World) (png_files : list string) : M unit :=
  assemble w (Py.reversed_slice png_files).

(** ** The whole script

    [utc_date] is the date token of lines 25-28. *)

Definition script (w : World) (utc_date : string) : M unit :=
  _ <-- makedirs_exist_ok FOLDER ;;
  listing <-- request w (index_url utc_date) ;;
  let keys := select_keys utc_date (key_texts w listing) in
  png_files <-- process_keys w keys [] ;;
  create_gif w png_files.

(** ** Observations *)

(** The animation at the output path, if there is one. *)
Definition animation_at (st : State) : option Gif :=
  match fs st !! GIF_FILENAME with
  | Some (GifFile g) => Some g
  | _ => None
  end.

(** What a viewer can tell of an animation: frame count, the display time
    of every frame, loop count and the pixel size of every frame. *)
Definition observable (g : Gif) : nat * list nat * nat * list (nat * nat) :=
  (List.length (shown g), List.map snd (shown g), loops g,
   List.map (fun x => size (fst x)) (shown g)).

Definition is_png (o : option file) : Prop :=
  exists label sz, o = Some (PngFile label sz).

(** A path at which [Image.open] finds an image. *)
Definition holds_image (o : option file) : Prop :=
  exists f, o = Some f /\ f <> PartialFile.

(** No frame of the list is equal to the one before it. *)
Fixpoint distinct_neighbours (w : World) (l : list Image) : Prop :=
  match l with
  | i :: (j :: _) as l' => same_frame w i j = false /\ distinct_neighbours w l'
  | _ => True
  end.

(** The keys a run works on: those selected from the listing it received
    (none when the listing request failed). *)
Definition keys_of_run (w : World) (utc_date : string) (st : State) : list string :=
  match http_get w (requests st) (index_url utc_date) with
  | inr listing => select_keys utc_date (key_texts w listing)
  | inl _ => []
  end.

(** [frames_written keys m m']: the files [m'] are the files [m] after one
    frame was written for each of [keys], in that order. *)
Fixpoint frames_written (keys : list string) (m m' : gmap string file) : Prop :=
  match keys with
  | [] => m' = m
  | key :: keys' =>
      exists label sz,
        frames_written keys' (<[out_png_of key := PngFile label sz]> m) m'
  end.

(** The state right after the listing request. *)
Definition listed (utc_date : string) (st : State) : State :=
  {| fs := fs st; requests := requests st ++ [index_url utc_date] |}.

(** ** Sample inputs *)

Module Sample.

(** 2024-01-15 03:10:00, a winter night in UTC. *)
Definition winter_scan : datetime :=
  {| ordinal := 738900; hour := 3; minute := 10; second := 0; microsecond := 0 |}.

(** Five frames on disk whose sizes are not all the same. *)
Definition five_paths : list string :=
  ["nexrad/s1_mercator.png"; "nexrad/s2_mercator.png"; "nexrad/s3_mercator.png";
   "nexrad/s4_mercator.png"; "nexrad/s5_mercator.png"].

Definition five_frames : State :=
  {| fs := list_to_map
             [("nexrad/s1_mercator.png", PngFile winter_scan (800, 800));
              ("nexrad/s2_mercator.png", PngFile winter_scan (800, 800));
              ("nexrad/s3_mercator.png", PngFile winter_scan (795, 800));
              ("nexrad/s4_mercator.png", PngFile winter_scan (800, 800));
              ("nexrad/s5_mercator.png", PngFile winter_scan (800, 802))];
     requests := [] |}.

(** A bucket that lists two scans of one day, five minutes apart, and a
    world in which every step succeeds. *)
Definition two_keys : list string :=
  ["MOB_N0B_2024_01_15_03_10_00"; "MOB_N0B_2024_01_15_03_15_00"].

Definition calm_world : World :=
  {| http_get := fun _ url => inr url;
     key_texts := fun _ => two_keys;
     read_nexrad_level3 := fun content => inr {| time_units := content |};
     plot_ppi_map := fun _ => None;
     parse_units := fun _ => inr winter_scan;
     savefig := fun _ _ => inr (800, 800);
     same_pixels := fun _ _ => false;
     gif_save := fun _ => Saved |}.

(** The same bucket when the download of the second scan fails. *)
Definition flaky_world : World :=
  {| http_get := fun earlier url =>
       if (List.length earlier <? 2)%nat then inr url else inl (HTTPError url);
     key_texts := fun _ => two_keys;
     read_nexrad_level3 := fun content => inr {| time_units := content |};
     plot_ppi_map := fun _ => None;
     parse_units := fun _ => inr winter_scan;
     savefig := fun _ _ => inr (800, 800);
     same_pixels := fun _ _ => false;
     gif_save := fun _ => Saved |}.

Definition empty_disk : State := {| fs := ∅; requests := [] |}.

End Sample.

(** ** The time text of a scan (lines 96-97)

    [radar.time['units']] reads like [seconds since 2024-01-15T03:10:00Z];
    the script keeps what follows [since], strips it and drops every [Z].
    The text that results goes to [datetime.fromisoformat]; [parse_units]
    above stands for the two steps together. *)

Module PyText.

(** [sep in s]. *)
Fixpoint occurs (sep s : string) : bool :=
  match s with
  | EmptyString => String.prefix sep EmptyString
  | String _ s' => (String.prefix sep s || occurs sep s')%bool
  end.

(** [s.split(sep)] for a non-empty [sep], scanning left to right: [acc] is
    the piece read so far and [skip] the number of characters of a separator
    just met that are still to be passed over. *)
Fixpoint split_from (sep s : string) (skip : nat) (acc : string) : list string :=
  match s with
  | EmptyString => [acc]
  | String c s' =>
      match skip with
      | S k => split_from sep s' k acc
      | O =>
          if String.prefix sep s
          then acc :: split_from sep s' (String.length sep - 1) EmptyString
          else split_from sep s' 0 (acc +:+ String c EmptyString)
      end
  end.

Definition split (s sep : string) : list string := split_from sep s 0 EmptyString.

(** The characters below 128 that [str.isspace] accepts: tab to carriage
    return, the four separators 28-31 and the space. *)
Definition is_space (c : ascii) : bool :=
  let n := N_of_ascii c in
  ((9 <=? n)%N && (n <=? 13)%N || (28 <=? n)%N && (n <=? 32)%N)%bool.

Fixpoint lstrip (s : string) : string :=
  match s with
  | EmptyString => EmptyString
  | String c s' => if is_space c then lstrip s' else s
  end.

Fixpoint rstrip (s : string) : string :=
  match s with
  | EmptyString => EmptyString
  | String c s' =>
      match rstrip s' with
      | EmptyString => if is_space c then EmptyString else String c EmptyString
      | r => String c r
      end
  end.

(** [s.strip()]. *)
Definition strip (s : string) : string := rstrip (lstrip s).

(** [s.replace(c, '')] for a one-character [c]. *)
Fixpoint remove_char (c : ascii) (s : string) : string :=
  match s with
  | EmptyString => EmptyString
  | String d s' => if Ascii.eqb d c then remove_char c s' else String d (remove_char c s')
  end.

End PyText.

(** Lines 96-97: [utc_time_str.split("since")[1].strip().replace('Z','')]. *)
Definition iso_text_of_units (utc_time_str : string) : exn + string :=
  match nth_error (PyText.split utc_time_str "since") 1 with
  | Some piece => inr (PyText.remove_char "Z" (PyText.strip piece))
  | None => inl IndexError
  end.

(** A text of characters below 128, on which [PyText.is_space] is exactly
    [str.isspace]. *)
Definition ascii_text (s : string) : Prop :=
  Forall (fun c => (N_of_ascii c < 128)%N) (list_ascii_of_string s).

(** A text has no slash. *)
Definition slash_free (s : string) : Prop :=
  ~ In "/"%char (list_ascii_of_string s).

(** More sample inputs. *)
Module Sample2.


(** A world whose encoder raises after the file was opened. *)
Definition full_disk_world : World :=
  {| http_get := fun _ url => inr url;
     key_texts := fun _ => Sample.two_keys;
     read_nexrad_level3 := fun content => inr {| time_units := content |};
     plot_ppi_map := fun _ => None;
     parse_units := fun _ => inr Sample.winter_scan;
     savefig := fun _ _ => inr (800, 800);
     same_pixels := fun _ _ => false;
     gif_save := fun _ => Broken (LibraryError "OSError") |}.

(** A working directory in which [nexrad] is a regular file. *)
Definition folder_is_a_file : State :=
  {| fs := {[ "nexrad" := PartialFile ]}; requests := [] |}.

(** A frame list whose third file is missing. *)
Definition paths_with_gap : list string :=
  ["nexrad/s1_mercator.png"; "nexrad/s2_mercator.png"; "nexrad/s9_mercator.png";
   "nexrad/s4_mercator.png"].

Definition units_text : string := "seconds since 2024-01-15T03:10:00Z".

End Sample2.

(** * Properties *)

(** ** The order on strings *)

Section StringOrder.

Lemma ascii_compare_cases (a b : ascii) :
  (Ascii.compare a b = Eq /\ a = b) \/
  (Ascii.compare a b = Lt /\ (N_of_ascii a < N_of_ascii b)%N) \/
  (Ascii.compare a b = Gt /\ (N_of_ascii b < N_of_ascii a)%N).
Proof.
  destruct (Ascii.compare a b) eqn:E.
  - left. split; [reflexivity | now apply Ascii.compare_eq_iff].
  - right; left. split; [reflexivity | now apply N.compare_lt_iff].
  - right; right. split; [reflexivity | now apply N.compare_gt_iff].
Qed.

Lemma str_le_trans (a b c : string) :
  Py.str_le a b -> Py.str_le b c -> Py.str_le a c.
Proof.
  unfold Py.str_le, String.leb. revert b c.
  induction a as [|x a IH]; intros [|y b] [|z c]; simpl; try congruence.
  intros Hab Hbc. specialize (IH b c).
  destruct (ascii_compare_cases x y) as [[E1 ?]|[[E1 ?]|[E1 ?]]];
  destruct (ascii_compare_cases y z) as [[E2 ?]|[[E2 ?]|[E2 ?]]];
  destruct (ascii_compare_cases x z) as [[E3 ?]|[[E3 ?]|[E3 ?]]];
  rewrite E1 in Hab; rewrite E2 in Hbc; rewrite E3;
  subst; try congruence; try lia; auto.
Qed.

Lemma str_le_total (a b : string) : Py.str_le a b \/ Py.str_le b a.
Proof. apply String.leb_total. Qed.

Lemma str_not_le (a b : string) : String.leb a b = false -> Py.str_le b a.
Proof.
  intros H. destruct (str_le_total a b) as [H'|H']; [|exact H'].
  unfold Py.str_le in H'. congruence.
Qed.

Lemma startswith_spec (s p : string) :
  Py.startswith s p = true <-> exists rest, s = p +:+ rest.
Proof.
  unfold Py.startswith. revert s.
  induction p as [|c p IH]; intros s; simpl.
  - split; [intros _; now exists s | intros _; now destruct s].
  - destruct s as [|d s]; simpl.
    + split; [discriminate | intros [rest H]; discriminate].
    + destruct (ascii_dec c d) as [->|Hne].
      * rewrite IH. split; intros [rest H]; exists rest.
        -- simpl. now rewrite H.
        -- simpl in H. now inversion H.
      * split; [discriminate | intros [rest H]; simpl in H; inversion H; congruence].
Qed.

End StringOrder.

(** ** [sorted] and the slices *)

Section Sorting.

Lemma insert_sorted_perm (x : string) (l : list string) :
  Permutation (Py.insert_sorted x l) (x :: l).
Proof.
  induction l as [|y l IH]; simpl; [reflexivity|].
  destruct (String.leb x y); [reflexivity|].
  rewrite IH. apply perm_swap.
Qed.

Lemma sorted_perm (l : list string) : Permutation (Py.sorted l) l.
Proof.
  unfold Py.sorted. induction l as [|x l IH]; simpl; [reflexivity|].
  rewrite insert_sorted_perm. now constructor.
Qed.

Lemma insert_sorted_ordered (x : string) (l : list string) :
  StronglySorted Py.str_le l -> StronglySorted Py.str_le (Py.insert_sorted x l).
Proof.
  induction 1 as [|y l Hl IH Hy]; simpl.
  - repeat constructor.
  - destruct (String.leb x y) eqn:E.
    + constructor; [now constructor|].
      constructor; [exact E|].
      eapply List.Forall_impl; [|exact Hy]. intros z Hz.
      eapply str_le_trans; [exact E | exact Hz].
    + constructor; [exact IH|].
      eapply Permutation_Forall; [symmetry; apply insert_sorted_perm|].
      constructor; [now apply str_not_le | exact Hy].
Qed.

Lemma sorted_ordered (l : list string) : StronglySorted Py.str_le (Py.sorted l).
Proof.
  unfold Py.sorted. induction l as [|x l IH]; simpl; [constructor|].
  now apply insert_sorted_ordered.
Qed.

Lemma StronglySorted_skipn {A : Type} (R : A -> A -> Prop) (n : nat) (l : list A) :
  StronglySorted R l -> StronglySorted R (skipn n l).
Proof.
  revert l. induction n as [|n IH]; intros l Hl; [exact Hl|].
  destruct l as [|x l]; [constructor|]. simpl.
  apply IH. now inversion Hl.
Qed.

Lemma last_slice_suffix {A : Type} (n : nat) (l : list A) :
  exists older, l = older ++ Py.last_slice n l.
Proof.
  exists (firstn (List.length l - n) l). unfold Py.last_slice.
  symmetry. apply firstn_skipn.
Qed.

Lemma last_slice_length {A : Type} (n : nat) (l : list A) :
  List.length (Py.last_slice n l) = Nat.min n (List.length l).
Proof. unfold Py.last_slice. rewrite List.length_skipn. lia. Qed.

Lemma last_slice_short {A : Type} (n : nat) (l : list A) :
  List.length l <= n -> Py.last_slice n l = l.
Proof.
  intros H. unfold Py.last_slice.
  replace (List.length l - n) with 0 by lia. reflexivity.
Qed.

End Sorting.

(** ** Key selection *)

(** C5: the keys of a run are the listed keys that start with
    [STATION_date], sorted ascending, cut to the last five of that order and
    still ascending; with five or fewer matching keys all of them are kept,
    nothing is added and nothing fails (the selection is a total function). *)
Theorem select_keys_latest_ascending (utc_date : string) (texts : list string) :
  let matching := matching_keys utc_date texts in
  let keys := select_keys utc_date texts in
  (forall k, In k matching <->
             In k texts /\ exists rest, k = STATION +:+ "_" +:+ utc_date +:+ rest) /\
  Permutation (Py.sorted matching) matching /\
  StronglySorted Py.str_le (Py.sorted matching) /\
  (exists older, Py.sorted matching = older ++ keys) /\
  StronglySorted Py.str_le keys /\
  List.length keys = Nat.min 5 (List.length matching) /\
  (List.length matching <= 5 -> keys = Py.sorted matching /\ Permutation keys matching).
Proof.
  intros matching keys. subst matching keys. unfold select_keys.
  pose proof (Permutation_length (sorted_perm (matching_keys utc_date texts))) as Hlen.
  split; [|split; [|split; [|split; [|split; [|split]]]]].
  - intros k. unfold matching_keys, key_prefix.
    rewrite List.filter_In, startswith_spec.
    split; intros [Hin [rest Hk]]; (split; [exact Hin|]); exists rest;
      rewrite Hk; simpl; reflexivity.
  - apply sorted_perm.
  - apply sorted_ordered.
  - apply last_slice_suffix.
  - unfold Py.last_slice. apply StronglySorted_skipn, sorted_ordered.
  - rewrite last_slice_length. now rewrite Hlen.
  - intros Hle. rewrite last_slice_short by (now rewrite Hlen).
    split; [reflexivity | apply sorted_perm].
Qed.

(** ** The display time *)

Section DisplayTime.

Local Open Scope Z_scope.

Lemma minus_five_hours :
  timedelta_neg (timedelta_hours 5) = {| days := -1; seconds := 68400; microseconds := 0 |}.
Proof. reflexivity. Qed.

Lemma timedelta_of_normal (d s us : Z) :
  0 <= s < 86400 -> 0 <= us < 1000000 ->
  timedelta_of d s us = {| days := d; seconds := s; microseconds := us |}.
Proof.
  intros Hs Hus. unfold timedelta_of.
  rewrite (Z.div_small us), Z.add_0_r by lia.
  rewrite (Z.div_small s), (Z.mod_small s), (Z.mod_small us) by lia.
  now rewrite Z.add_0_r.
Qed.

(** The arithmetic of [cdt_of_utc], with the day and the second of the day
    it arrives at. *)
Lemma cdt_of_utc_fields (dt : datetime) :
  well_formed dt ->
  let sod := hour dt * 3600 + minute dt * 60 + second dt in
  let day' := ordinal dt - 1 + (sod + 68400) / 86400 in
  let sod' := (sod + 68400) mod 86400 in
  cdt_of_utc dt =
    if ((0 <? day') && (day' <=? MAXORDINAL))%bool
    then inr {| ordinal := day'; hour := sod' / 3600; minute := sod' mod 3600 / 60;
                second := sod' mod 3600 mod 60; microsecond := microsecond dt |}
    else inl OverflowError.
Proof.
  intros (Ho & Hh & Hm & Hs & Hus) sod day' sod'.
  unfold cdt_of_utc, datetime_sub, datetime_add. rewrite minus_five_hours.
  rewrite timedelta_of_normal by (try assumption; lia).
  unfold timedelta_add. cbn [days seconds microseconds].
  unfold timedelta_of. cbn [days seconds microseconds].
  rewrite Z.add_0_r, (Z.div_small (microsecond dt)), Z.add_0_r,
    (Z.mod_small (microsecond dt)) by lia.
  replace (ordinal dt + -1) with (ordinal dt - 1) by lia.
  reflexivity.
Qed.


End DisplayTime.

(** ** Frame files *)

Section Frames.

Lemma out_png_not_gif (key : string) : out_png_of key <> GIF_FILENAME.
Proof.
  unfold out_png_of, Py.os_path_join.
  set (b := Py.split_slash_last key +:+ "_mercator.png").
  destruct (Py.startswith b "/") eqn:E.
  - apply startswith_spec in E. destruct E as [rest ->]. discriminate.
  - cbn. discriminate.
Qed.

Lemma frames_written_elsewhere (keys : list string) :
  forall (m m' : gmap string file) (p : string),
    frames_written keys m m' ->
    (forall key, In key keys -> out_png_of key <> p) ->
    m' !! p = m !! p.
Proof.
  induction keys as [|k keys IH]; intros m m' p H Hp; simpl in H.
  - now subst.
  - destruct H as (label & sz & H).
    rewrite (IH _ _ p H) by (intros key Hk; apply Hp; now right).
    apply lookup_insert_ne. apply Hp. now left.
Qed.

Lemma frames_written_gif (keys : list string) (m m' : gmap string file) :
  frames_written keys m m' -> m' !! GIF_FILENAME = m !! GIF_FILENAME.
Proof.
  intros H. apply (frames_written_elsewhere keys m m' _ H).
  intros key _. apply out_png_not_gif.
Qed.

Lemma frames_written_keeps_png (keys : list string) :
  forall (m m' : gmap string file) (p : string),
    frames_written keys m m' -> is_png (m !! p) -> is_png (m' !! p).
Proof.
  induction keys as [|k keys IH]; intros m m' p H Hp; simpl in H.
  - now subst.
  - destruct H as (label & sz & H). apply (IH _ _ p H).
    destruct (decide (out_png_of k = p)) as [<-|Hne].
    + exists label, sz. apply lookup_insert_eq.
    + now rewrite lookup_insert_ne.
Qed.

Lemma frames_written_present (keys : list string) :
  forall (m m' : gmap string file),
    frames_written keys m m' ->
    forall key, In key keys -> is_png (m' !! out_png_of key).
Proof.
  induction keys as [|k keys IH]; intros m m' H key Hin; simpl in H.
  - destruct Hin.
  - destruct H as (label & sz & H). destruct Hin as [->|Hin].
    + apply (frames_written_keeps_png _ _ _ _ H).
      exists label, sz. apply lookup_insert_eq.
    + now apply (IH _ _ H).
Qed.

End Frames.

(** ** The per-key loop *)

Section Loop.

Variable w : World.

Lemma process_key_spec (key : string) (st st' : State) (r : exn + string) :
  process_key w key st = (r, st') ->
  requests st' = requests st ++ [file_url key] /\
  match r with
  | inl _ => fs st' = fs st
  | inr p => p = out_png_of key /\
             exists label sz, fs st' = <[out_png_of key := PngFile label sz]> (fs st)
  end.
Proof.
  unfold process_key, bind, request, lift, ret, raise, write_file. cbn.
  intros H.
  destruct (http_get w (requests st) (file_url key)) as [e|content]; cbn in H;
    [inversion H; subst; cbn; auto|].
  destruct (read_nexrad_level3 w content) as [e|radar]; cbn in H;
    [inversion H; subst; cbn; auto|].
  destruct (plot_ppi_map w radar) as [e|]; cbn in H;
    [inversion H; subst; cbn; auto|].
  destruct (parse_units w (time_units radar)) as [e|utc_dt]; cbn in H;
    [inversion H; subst; cbn; auto|].
  destruct (cdt_of_utc utc_dt) as [e|cdt_dt]; cbn in H;
    [inversion H; subst; cbn; auto|].
  destruct (savefig w radar cdt_dt) as [e|sz]; cbn in H;
    [inversion H; subst; cbn; auto|].
  inversion H; subst; cbn. eauto.
Qed.

Lemma process_keys_cons (key : string) (keys acc : list string) (st : State) :
  process_keys w (key :: keys) acc st =
  match process_key w key st with
  | (inr out_png, st1) => process_keys w keys (acc ++ [out_png]) st1
  | (inl e, st1) => (inl e, st1)
  end.
Proof. reflexivity. Qed.

(** The loop either appends one path per key, or stops at the first key
    whose step raises, in the state that step left. *)
Lemma process_keys_spec (keys : list string) :
  forall (acc : list string) (st st' : State) (r : exn + list string),
    process_keys w keys acc st = (r, st') ->
    match r with
    | inr files =>
        files = acc ++ List.map out_png_of keys /\
        frames_written keys (fs st) (fs st') /\
        requests st' = requests st ++ List.map file_url keys
    | inl e =>
        exists done failing rest st_mid files,
          keys = done ++ failing :: rest /\
          process_keys w done acc st = (inr files, st_mid) /\
          process_key w failing st_mid = (inl e, st')
    end.
Proof.
  induction keys as [|k keys IH]; intros acc st st' r H.
  - cbn in H. inversion H; subst. now rewrite !app_nil_r.
  - rewrite process_keys_cons in H.
    destruct (process_key w k st) as [[e|p] st1] eqn:Hk.
    + inversion H; subst. now exists [], k, keys, st, acc.
    + apply IH in H. destruct r as [e|files].
      * destruct H as (done & failing & rest & st_mid & files & -> & Hd & Hf).
        exists (k :: done), failing, rest, st_mid, files.
        split; [reflexivity|]. split; [|exact Hf].
        now rewrite process_keys_cons, Hk.
      * destruct H as (-> & Hw & Hr).
        apply process_key_spec in Hk. destruct Hk as (Hr1 & -> & label & sz & Hfs).
        split; [now rewrite <- app_assoc|].
        split; [simpl; exists label, sz; now rewrite <- Hfs|].
        rewrite Hr, Hr1, <- app_assoc. reflexivity.
Qed.

End Loop.

(** ** The GIF writer *)

Section Writer.

Variable w : World.

Lemma encode_from_sublist (rest : list Image) :
  forall prev ms d,
    List.map fst (encode_from w prev ms rest d) `sublist_of` (prev :: rest).
Proof.
  induction rest as [|i rest IH]; intros prev ms d; cbn [encode_from].
  - reflexivity.
  - destruct (same_frame w prev i).
    + etransitivity; [apply IH|].
      apply sublist_skip, sublist_cons. reflexivity.
    + cbn [List.map fst]. apply sublist_skip, IH.
Qed.

Lemma encode_from_Forall (P : Image -> Prop) (rest : list Image) :
  forall prev ms d,
    P prev -> Forall P rest ->
    Forall (fun x => P (fst x)) (encode_from w prev ms rest d).
Proof.
  induction rest as [|i rest IH]; intros prev ms d Hp Hrest; cbn [encode_from].
  - repeat constructor. exact Hp.
  - inversion Hrest as [|? ? Hi Hrest']; subst.
    destruct (same_frame w prev i).
    + now apply IH.
    + constructor; [exact Hp | now apply IH].
Qed.


Lemma encode_from_distinct (rest : list Image) :
  forall prev ms d,
    distinct_neighbours w (prev :: rest) ->
    encode_from w prev ms rest d = (prev, ms) :: List.map (fun i => (i, d)) rest.
Proof.
  induction rest as [|i rest IH]; intros prev ms d Hd; cbn [encode_from].
  - reflexivity.
  - destruct Hd as [Hne Hd]. rewrite Hne. f_equal. now apply IH.
Qed.

(** The outcome of [save], case by case. *)
Lemma save_spec (path : string) (a : Animation) (st : State) :
  match gif_save w a with
  | Saved =>
      save w path a st =
        (inr tt, {| fs := <[path := GifFile (encode w a)]> (fs st);
                    requests := requests st |})
  | NotOpened e => save w path a st = (inl e, st)
  | Broken e =>
      exists st',
        save w path a st = (inl e, st') /\
        requests st' = requests st /\
        (forall p, p <> path -> fs st' !! p = fs st !! p) /\
        (fs st' !! path = None \/ fs st' !! path = Some PartialFile)
  end.
Proof.
  unfold save. destruct (gif_save w a) as [|e|e]; [reflexivity | reflexivity |].
  eexists. split; [reflexivity|]. cbn [fs requests]. split; [reflexivity|].
  destruct (fs st !! path) eqn:Hp.
  - split; [|right; apply lookup_insert_eq].
    intros p Hne. now apply lookup_insert_ne, not_eq_sym.
  - split; [reflexivity | now left].
Qed.

Lemma save_elsewhere (path : string) (a : Animation) (st st' : State) (r : exn + unit) :
  save w path a st = (r, st') ->
  requests st' = requests st /\
  (forall p, p <> path -> fs st' !! p = fs st !! p).
Proof.
  intros H. pose proof (save_spec path a st) as Hs.
  destruct (gif_save w a) as [|e|e].
  - rewrite Hs in H. inversion H; subst. cbn. split; [reflexivity|].
    intros p Hne. now apply lookup_insert_ne, not_eq_sym.
  - rewrite Hs in H. inversion H; subst. auto.
  - destruct Hs as (st2 & Hs & Hr & Hfs & _). rewrite Hs in H. inversion H; subst. auto.
Qed.

Lemma save_returns (path : string) (a : Animation) (st st' : State) :
  save w path a st = (inr tt, st') ->
  gif_save w a = Saved /\
  st' = {| fs := <[path := GifFile (encode w a)]> (fs st); requests := requests st |}.
Proof.
  intros H. pose proof (save_spec path a st) as Hs.
  destruct (gif_save w a) as [|e|e].
  - rewrite Hs in H. inversion H. auto.
  - rewrite Hs in H. discriminate H.
  - destruct Hs as (st2 & Hs & _). rewrite Hs in H. discriminate H.
Qed.

Lemma save_raises (path : string) (a : Animation) (st st' : State) (e : exn) :
  save w path a st = (inl e, st') ->
  gif_save w a <> Saved /\
  (fs st' !! path = fs st !! path \/
   fs st' !! path = None \/ fs st' !! path = Some PartialFile).
Proof.
  intros H. pose proof (save_spec path a st) as Hs.
  destruct (gif_save w a) as [|e'|e'].
  - rewrite Hs in H. discriminate H.
  - rewrite Hs in H. inversion H; subst. split; [discriminate | now left].
  - destruct Hs as (st2 & Hs & _ & _ & Hp). rewrite Hs in H. inversion H; subst.
    split; [discriminate | now right].
Qed.

End Writer.

(** ** Assembly *)

Section Assembly.

Variable w : World.

Lemma open_frames_state (paths : list string) :
  forall base images st r st',
    open_frames paths base images st = (r, st') -> st' = st.
Proof.
  induction paths as [|p paths IH]; intros base images st r st' H.
  - cbn in H. now inversion H.
  - cbn in H. unfold bind, Image_open in H.
    destruct (fs st !! p) as [[label sz|g|]|]; try (now inversion H);
      destruct base as [bs|]; now apply IH in H.
Qed.

(** What is opened depends on the files at the given paths only. *)
Lemma open_frames_agree (paths : list string) :
  forall base images st1 st2,
    (forall p, In p paths -> fs st1 !! p = fs st2 !! p) ->
    fst (open_frames paths base images st1) = fst (open_frames paths base images st2).
Proof.
  induction paths as [|p paths IH]; intros base images st1 st2 Hsame.
  - reflexivity.
  - cbn. unfold bind, Image_open.
    rewrite <- (Hsame p) by now left.
    destruct (fs st1 !! p) as [[label sz|g|]|]; try reflexivity;
      destruct base as [bs|]; apply IH; intros q Hq; apply Hsame; now right.
Qed.

Lemma Image_open_image (p : string) (st : State) (f : file) :
  fs st !! p = Some f -> f <> PartialFile ->
  Image_open p st =
    (inr {| origin := p; size := file_size f; resizes := []; resampled := [] |}, st).
Proof.
  intros Hf Hne. unfold Image_open. rewrite Hf.
  destruct f; [reflexivity | reflexivity | congruence].
Qed.

(** The frames after the first: each resized to [bs], the pixels resampled
    when the file has another size. *)
Lemma open_frames_resized (paths : list string) :
  forall bs images st,
    (forall p, In p paths -> holds_image (fs st !! p)) ->
    exists opened,
      open_frames paths (Some bs) images st = (inr (images ++ opened), st) /\
      List.map origin opened = paths /\
      Forall (fun i =>
                size i = bs /\ resizes i = [(bs, BILINEAR)] /\
                exists g, fs st !! origin i = Some g /\
                          resampled i =
                            if decide (file_size g = bs) then [] else [(bs, BILINEAR)])
        opened.
Proof.
  induction paths as [|p paths IH]; intros bs images st Hall.
  - exists []. now rewrite app_nil_r.
  - destruct (Hall p (or_introl eq_refl)) as (f & Hf & Hne).
    destruct (IH bs
                (images ++ [resize {| origin := p; size := file_size f; resizes := [];
                                      resampled := [] |} bs BILINEAR]) st)
      as (opened & Ho & Hm & Hr).
    { intros q Hq. apply Hall. now right. }
    eexists (_ :: opened). split; [|split].
    + cbn. unfold bind. rewrite (Image_open_image p st f Hf Hne), Ho, <- app_assoc.
      reflexivity.
    + cbn. now rewrite Hm.
    + constructor; [|exact Hr]. cbn.
      split; [reflexivity|]. split; [reflexivity|]. exists f. split; [exact Hf|].
      destruct (decide (file_size f = bs)); reflexivity.
Qed.

(** When every path can be opened, the assembly hands [save] one frame per
    path, in the order of the paths: the first as it is, the others resized. *)
Lemma assemble_calls_save (p : string) (ps : list string) (st : State) (f : file) :
  fs st !! p = Some f -> f <> PartialFile ->
  (forall q, In q ps -> holds_image (fs st !! q)) ->
  exists rest,
    assemble w (p :: ps) st =
      save w GIF_FILENAME
        {| frames := {| origin := p; size := file_size f; resizes := [];
                        resampled := [] |} :: rest;
           duration := 800; loop := 0 |} st /\
    List.map origin rest = ps /\
    Forall (fun i =>
              size i = file_size f /\ resizes i = [(file_size f, BILINEAR)] /\
              exists g, fs st !! origin i = Some g /\
                        resampled i =
                          if decide (file_size g = file_size f) then []
                          else [(file_size f, BILINEAR)])
      rest.
Proof.
  intros Hf Hne Hall.
  destruct (open_frames_resized ps (file_size f)
              [{| origin := p; size := file_size f; resizes := []; resampled := [] |}]
              st Hall)
    as (rest & Ho & Hm & Hr).
  exists rest. split; [|split; assumption].
  unfold assemble, bind. cbn. unfold bind.
  rewrite (Image_open_image p st f Hf Hne). cbn.
  rewrite Ho. reflexivity.
Qed.

Lemma animation_at_saved (m : gmap string file) (g : Gif) (reqs : list string) :
  animation_at {| fs := <[GIF_FILENAME := GifFile g]> m; requests := reqs |} = Some g.
Proof. unfold animation_at. cbn. now rewrite lookup_insert_eq. Qed.

Lemma assemble_nonempty (paths : list string) (st : State) :
  paths <> [] ->
  Forall (fun p => holds_image (fs st !! p)) paths ->
  exists p ps f,
    paths = p :: ps /\ fs st !! p = Some f /\ f <> PartialFile /\
    (forall q, In q ps -> holds_image (fs st !! q)).
Proof.
  intros Hne Hall. destruct paths as [|p ps]; [congruence|].
  inversion Hall as [|? ? (f & Hf & Hnp) Hps]; subst.
  exists p, ps, f. split; [reflexivity|]. split; [exact Hf|]. split; [exact Hnp|].
  intros q Hq. rewrite List.Forall_forall in Hps. now apply Hps.
Qed.

(** A save that is not refused leaves the encoded animation. *)
Lemma saved_animation (a : Animation) (st : State) :
  gif_save w a = Saved ->
  exists st',
    save w GIF_FILENAME a st = (inr tt, st') /\
    animation_at st' = Some (encode w a).
Proof.
  intros Hs. pose proof (save_spec w GIF_FILENAME a st) as H. rewrite Hs in H.
  eexists. split; [exact H | apply animation_at_saved].
Qed.

End Assembly.

(** ** Claims about the assembly *)

Section AssemblyClaims.

(** C2: when the frames can be opened, the assembly hands [save] one frame
    per path, every one of them with the pixel size of the first file; a
    frame whose file has another size went through [resize] to that size
    with the bilinear filter and its pixels were resampled; every frame of
    the encoded animation has that size; and the sizes cannot make the
    assembly fail: it ends as the save of these frames ends. *)
Theorem frames_share_first_size (w : World) (paths : list string) (st : State) :
  paths <> [] ->
  Forall (fun p => holds_image (fs st !! p)) paths ->
  exists a first f,
    assemble w paths st = save w GIF_FILENAME a st /\
    List.map origin (frames a) = paths /\
    head paths = Some first /\ fs st !! first = Some f /\
    Forall (fun i => size i = file_size f) (frames a) /\
    (forall i g, In i (frames a) -> fs st !! origin i = Some g ->
                 file_size g <> file_size f ->
                 resizes i = [(file_size f, BILINEAR)] /\
                 resampled i = [(file_size f, BILINEAR)]) /\
    Forall (fun x => size (fst x) = file_size f) (shown (encode w a)) /\
    (gif_save w a = Saved ->
     exists st', assemble w paths st = (inr tt, st') /\
                 animation_at st' = Some (encode w a)).
Proof.
  intros Hne Hall.
  destruct (assemble_nonempty paths st Hne Hall) as (p & ps & f & -> & Hf & Hnp & Hps).
  destruct (assemble_calls_save w p ps st f Hf Hnp Hps) as (rest & Ha & Hm & Hr).
  eexists _, p, f. split; [exact Ha|]. cbn [frames].
  assert (Hsz : Forall (fun i => size i = file_size f)
                  ({| origin := p; size := file_size f; resizes := []; resampled := [] |}
                   :: rest)).
  { constructor; [reflexivity|].
    eapply List.Forall_impl; [|exact Hr]. now intros i [Hs _]. }
  split; [cbn; now rewrite Hm|]. split; [reflexivity|]. split; [exact Hf|].
  split; [exact Hsz|]. split; [|split].
  - intros i g [<-|Hi] Hg Hdiff.
    + cbn in Hg. congruence.
    + rewrite List.Forall_forall in Hr.
      destruct (Hr i Hi) as (_ & Hrs & g' & Hg' & Hrp).
      split; [exact Hrs|]. rewrite Hg in Hg'. inversion Hg'; subst g'.
      rewrite Hrp. destruct (decide (file_size g = file_size f)); [contradiction|].
      reflexivity.
  - unfold encode. cbn [frames duration shown].
    apply (encode_from_Forall w (fun i => size i = file_size f)); [reflexivity|].
    eapply List.Forall_impl; [|exact Hr]. now intros i [Hs _].
  - intros Hs. rewrite Ha. now apply saved_animation.
Qed.


(** C4: on the empty list of paths the assembly raises at [images[0]]
    ([IndexError], the empty-sequence failure) and the state, the file at the
    animation path included, is the one it started from. *)
Theorem assemble_empty_raises (w : World) (st : State) :
  assemble w [] st = (inl IndexError, st) /\
  create_gif w [] st = (inl IndexError, st) /\
  forall r st', assemble w [] st = (r, st') ->
                fs st' !! GIF_FILENAME = fs st !! GIF_FILENAME.
Proof.
  split; [reflexivity|]. split; [reflexivity|].
  intros r st' H. cbv in H. now inversion H.
Qed.

(** C8: assembling the same paths a second time, the frame files being what
    they were (the animation path is not one of them), succeeds again and
    leaves an animation with the same frame count, display times, loop count
    and frame sizes. *)
Theorem assemble_twice_same_observables
    (w : World) (paths : list string) (st st1 : State) :
  ~ In GIF_FILENAME paths ->
  assemble w paths st = (inr tt, st1) ->
  exists st2 a1 a2,
    assemble w paths st1 = (inr tt, st2) /\
    animation_at st1 = Some a1 /\
    animation_at st2 = Some a2 /\
    observable a2 = observable a1.
Proof.
  intros Hout H1. unfold assemble, bind in *.
  destruct (open_frames paths None [] st) as [[e|images] s] eqn:Ho; [discriminate|].
  pose proof (open_frames_state _ _ _ _ _ _ Ho) as ->.
  destruct images as [|first others]; [discriminate|].
  set (a := {| frames := first :: others; duration := 800; loop := 0 |}) in *.
  apply save_returns in H1. destruct H1 as [Hs ->].
  set (st1 := {| fs := <[GIF_FILENAME := GifFile (encode w a)]> (fs st);
                 requests := requests st |}).
  assert (Hsame : forall p, In p paths -> fs st1 !! p = fs st !! p).
  { intros p Hp. cbn. apply lookup_insert_ne. intros Heq. apply Hout. now rewrite Heq. }
  pose proof (open_frames_agree paths None [] st1 st Hsame) as Hfst.
  destruct (open_frames paths None [] st1) as [r s] eqn:Ho1.
  pose proof (open_frames_state _ _ _ _ _ _ Ho1) as ->.
  rewrite Ho in Hfst. cbn in Hfst. subst r. fold a.
  pose proof (save_spec w GIF_FILENAME a st1) as Hsave. rewrite Hs in Hsave.
  eexists _, (encode w a), (encode w a). split; [exact Hsave|].
  split; [apply animation_at_saved|].
  split; [apply animation_at_saved | reflexivity].
Qed.

(** C10: the first frame is handed to [save] as it was opened and fixes the
    size; every later frame goes through [resize] to that size with the
    bilinear filter, whether or not its own size was already that one. *)
Theorem resize_is_unconditional (w : World) (paths : list string) (st : State) :
  paths <> [] ->
  Forall (fun p => holds_image (fs st !! p)) paths ->
  exists a first others p f,
    assemble w paths st = save w GIF_FILENAME a st /\
    frames a = first :: others /\
    head paths = Some p /\ fs st !! p = Some f /\
    origin first = p /\ size first = file_size f /\ resizes first = [] /\
    List.map origin others = tail paths /\
    Forall (fun i => resizes i = [(size first, BILINEAR)]) others /\
    (gif_save w a = Saved ->
     exists st', assemble w paths st = (inr tt, st') /\
                 animation_at st' = Some (encode w a)).
Proof.
  intros Hne Hall.
  destruct (assemble_nonempty paths st Hne Hall) as (p & ps & f & -> & Hf & Hnp & Hps).
  destruct (assemble_calls_save w p ps st f Hf Hnp Hps) as (rest & Ha & Hm & Hr).
  eexists _, _, rest, p, f. split; [exact Ha|]. cbn.
  repeat (split; [reflexivity|]). split; [exact Hf|].
  repeat (split; [reflexivity|]). split; [exact Hm|]. split.
  - eapply List.Forall_impl; [|exact Hr]. now intros i (_ & Hi & _).
  - intros Hs. rewrite Ha. now apply saved_animation.
Qed.

End AssemblyClaims.

(** ** The whole run *)

Section Script.

Variable w : World.

Lemma script_unfold (utc_date : string) (st : State) :
  script w utc_date st =
  match fs st !! FOLDER with
  | Some _ => (inl (FileExistsError FOLDER), st)
  | None =>
      match http_get w (requests st) (index_url utc_date) with
      | inl e => (inl e, listed utc_date st)
      | inr listing =>
          match process_keys w (select_keys utc_date (key_texts w listing)) []
                  (listed utc_date st) with
          | (inr files, st1) => assemble w (rev files) st1
          | (inl e, st1) => (inl e, st1)
          end
      end
  end.
Proof.
  unfold script, bind, makedirs_exist_ok, request, listed.
  destruct (fs st !! FOLDER); [reflexivity|].
  destruct (http_get w (requests st) (index_url utc_date)); reflexivity.
Qed.

(** After the loop every frame it wrote is on disk, so the assembly of a
    non-empty list of rendered keys reaches [save], with the frames in the
    order [png_files[::-1]] and the size of the file opened first. *)
Lemma assemble_rendered (keys : list string) (m : gmap string file) (st1 : State) :
  keys <> [] ->
  frames_written keys m (fs st1) ->
  exists a p f,
    assemble w (rev (List.map out_png_of keys)) st1 = save w GIF_FILENAME a st1 /\
    List.map origin (frames a) = rev (List.map out_png_of keys) /\
    duration a = 800 /\ loop a = 0 /\
    head (rev (List.map out_png_of keys)) = Some p /\
    fs st1 !! p = Some f /\
    Forall (fun i => size i = file_size f) (frames a).
Proof.
  intros Hne Hw.
  assert (Hall : Forall (fun p => holds_image (fs st1 !! p))
                   (rev (List.map out_png_of keys))).
  { apply List.Forall_forall. intros p Hp.
    apply List.in_rev, List.in_map_iff in Hp. destruct Hp as (key & <- & Hin).
    destruct (frames_written_present keys m (fs st1) Hw key Hin) as (label & sz & ->).
    eexists. split; [reflexivity | discriminate]. }
  assert (Hne' : rev (List.map out_png_of keys) <> []).
  { intros Hnil. apply (f_equal (@List.length string)) in Hnil.
    rewrite List.length_rev, List.length_map in Hnil.
    destruct keys; [congruence | discriminate]. }
  destruct (assemble_nonempty _ st1 Hne' Hall) as (p & ps & f & Hrev & Hf & Hnp & Hps).
  destruct (assemble_calls_save w p ps st1 f Hf Hnp Hps) as (rest & Ha & Hm & Hr).
  rewrite Hrev. eexists _, p, f. split; [exact Ha|]. cbn.
  split; [now rewrite Hm|]. repeat (split; [reflexivity|]). split; [exact Hf|].
  constructor; [reflexivity|].
  eapply List.Forall_impl; [|exact Hr]. now intros i [Hs _].
Qed.

(** A run that ends well passed line 31, made every request, wrote every
    frame and then saved the animation. *)
Lemma script_success (utc_date : string) (st st' : State) :
  script w utc_date st = (inr tt, st') ->
  let keys := keys_of_run w utc_date st in
  fs st !! FOLDER = None /\
  keys <> [] /\
  requests st' = requests st ++ index_url utc_date :: List.map file_url keys /\
  exists m1 a p f,
    frames_written keys (fs st) m1 /\
    fs st' = <[GIF_FILENAME := GifFile (encode w a)]> m1 /\
    gif_save w a = Saved /\
    List.map origin (frames a) = rev (List.map out_png_of keys) /\
    duration a = 800 /\ loop a = 0 /\
    head (rev (List.map out_png_of keys)) = Some p /\
    m1 !! p = Some f /\
    Forall (fun i => size i = file_size f) (frames a).
Proof.
  intros H keys. subst keys. unfold keys_of_run.
  rewrite script_unfold in H.
  destruct (fs st !! FOLDER); [discriminate|].
  destruct (http_get w (requests st) (index_url utc_date)) as [e|listing]; [discriminate|].
  set (keys := select_keys utc_date (key_texts w listing)) in *.
  destruct (process_keys w keys [] (listed utc_date st)) as [[e|files] st1] eqn:Hp;
    [discriminate|].
  apply process_keys_spec in Hp. destruct Hp as (-> & Hw & Hr). cbn [app fs listed] in *.
  split; [reflexivity|].
  destruct (decide (keys = [])) as [Hnil|Hne].
  - rewrite Hnil in H. cbv in H. discriminate.
  - destruct (assemble_rendered keys (fs st) st1 Hne Hw)
      as (a & p & f & Ha & Ho & Hd & Hl & Hp & Hf & Hsz).
    rewrite Ha in H. apply save_returns in H. destruct H as [Hs ->]. cbn.
    split; [exact Hne|]. split.
    + rewrite Hr. cbn. now rewrite <- app_assoc.
    + exists (fs st1), a, p, f. auto 10.
Qed.

(** A run that fails failed at line 31, at the listing, at one key of the
    loop, at [images[0]] for want of keys, or in [save]; its final state is
    the state the failing step left. *)
Lemma script_failure (utc_date : string) (st st' : State) (e : exn) :
  script w utc_date st = (inl e, st') ->
  let keys := keys_of_run w utc_date st in
  (fs st !! FOLDER <> None /\ e = FileExistsError FOLDER /\ st' = st) \/
  (fs st !! FOLDER = None /\
   ((http_get w (requests st) (index_url utc_date) = inl e /\ st' = listed utc_date st) \/
    (exists done failing rest st_mid files,
        keys = done ++ failing :: rest /\
        process_keys w done [] (listed utc_date st) = (inr files, st_mid) /\
        process_key w failing st_mid = (inl e, st')) \/
    (keys = [] /\ e = IndexError /\ st' = listed utc_date st) \/
    (exists files st1 a,
        keys <> [] /\
        process_keys w keys [] (listed utc_date st) = (inr files, st1) /\
        List.map origin (frames a) = rev (List.map out_png_of keys) /\
        save w GIF_FILENAME a st1 = (inl e, st')))).
Proof.
  intros H keys. subst keys. unfold keys_of_run.
  rewrite script_unfold in H.
  destruct (fs st !! FOLDER) eqn:Hdir.
  { inversion H; subst. left. split; [discriminate | auto]. }
  right. split; [reflexivity|].
  destruct (http_get w (requests st) (index_url utc_date)) as [e0|listing].
  { inversion H; subst. now left. }
  set (keys := select_keys utc_date (key_texts w listing)) in *.
  destruct (process_keys w keys [] (listed utc_date st)) as [[e1|files] st1] eqn:Hp.
  - inversion H; subst. right; left.
    exact (process_keys_spec w keys _ _ _ _ Hp).
  - destruct (decide (keys = [])) as [Hnil|Hne].
    + rewrite Hnil in *. cbv [process_keys ret] in Hp. inversion Hp; subst.
      cbv in H. inversion H; subst. right; right; left. auto.
    + pose proof (process_keys_spec w keys _ _ _ _ Hp) as (Hfiles & Hw & _).
      cbn [app] in Hfiles. subst files.
      destruct (assemble_rendered keys _ st1 Hne Hw) as (a & p & f & Ha & Ho & _).
      rewrite Ha in H. right; right; right.
      exists (List.map out_png_of keys), st1, a. auto.
Qed.

(** What the frames of a failed loop look like on disk, and which requests
    were made. *)
Lemma stopped_loop (done : list string) (failing : string)
    (st0 st_mid st' : State) (files : list string) (e : exn) :
  process_keys w done [] st0 = (inr files, st_mid) ->
  process_key w failing st_mid = (inl e, st') ->
  frames_written done (fs st0) (fs st') /\
  requests st' = requests st0 ++ List.map file_url (done ++ [failing]).
Proof.
  intros Hd Hf.
  apply process_keys_spec in Hd. destruct Hd as (_ & Hw & Hr).
  apply process_key_spec in Hf. destruct Hf as (Hr' & Hfs).
  rewrite Hfs. split; [exact Hw|].
  rewrite Hr', Hr, List.map_app, <- app_assoc. reflexivity.
Qed.

(** What a failed save leaves of a run: every frame on disk, every request
    made, and at the animation path the file that was there or no image. *)
Lemma stopped_save (keys files : list string) (st0 st1 st' : State)
    (a : Animation) (e : exn) :
  process_keys w keys [] st0 = (inr files, st1) ->
  save w GIF_FILENAME a st1 = (inl e, st') ->
  gif_save w a <> Saved /\
  requests st' = requests st0 ++ List.map file_url keys /\
  (forall key, In key keys -> is_png (fs st' !! out_png_of key)) /\
  (forall p, p <> GIF_FILENAME -> (forall key, In key keys -> out_png_of key <> p) ->
             fs st' !! p = fs st0 !! p) /\
  (fs st' !! GIF_FILENAME = fs st0 !! GIF_FILENAME \/ animation_at st' = None).
Proof.
  intros Hp Hs.
  apply process_keys_spec in Hp. destruct Hp as (_ & Hw & Hr).
  pose proof (save_elsewhere w _ _ _ _ _ Hs) as (Hr' & Hfs).
  pose proof (save_raises w _ _ _ _ _ Hs) as (Hns & Hg).
  split; [exact Hns|]. split; [now rewrite Hr', Hr|]. split; [|split].
  - intros key Hin. rewrite Hfs by apply out_png_not_gif.
    exact (frames_written_present keys _ _ Hw key Hin).
  - intros p Hne Hkeys. rewrite (Hfs p Hne).
    exact (frames_written_elsewhere keys _ _ p Hw Hkeys).
  - unfold animation_at. destruct Hg as [Hg|[Hg|Hg]]; rewrite Hg; auto.
    left. exact (frames_written_gif keys _ _ Hw).
Qed.

End Script.

(** ** Claims about a run *)

Section RunClaims.

Lemma encode_sublist (w : World) (a : Animation) :
  List.map fst (shown (encode w a)) `sublist_of` frames a.
Proof.
  unfold encode. destruct (frames a) as [|first others]; cbn [shown List.map].
  - reflexivity.
  - apply encode_from_sublist.
Qed.

Lemma encode_length (w : World) (a : Animation) :
  List.length (shown (encode w a)) <= List.length (frames a).
Proof.
  rewrite <- (List.length_map fst (shown (encode w a))).
  apply sublist_length, encode_sublist.
Qed.

Lemma frames_per_key (a : Animation) (keys : list string) :
  List.map origin (frames a) = rev (List.map out_png_of keys) ->
  List.length (frames a) = List.length keys.
Proof.
  intros Ho. apply (f_equal (@List.length string)) in Ho.
  now rewrite List.length_rev, !List.length_map in Ho.
Qed.

(** C1 (the code does otherwise): with two scans listed, the keys are
    selected oldest first and rendered in that order, but the list handed to
    the assembly is that order reversed, so the saved animation shows the
    03:15 scan first and the 03:10 scan last. *)
Example newest_scan_is_shown_first :
  select_keys "2024_01_15" Sample.two_keys =
    ["MOB_N0B_2024_01_15_03_10_00"; "MOB_N0B_2024_01_15_03_15_00"] /\
  let run := script Sample.calm_world "2024_01_15" Sample.empty_disk in
  fst run = inr tt /\
  option_map (fun g => List.map (fun x => origin (fst x)) (shown g))
    (animation_at (snd run)) =
    Some ["nexrad/MOB_N0B_2024_01_15_03_15_00_mercator.png";
          "nexrad/MOB_N0B_2024_01_15_03_10_00_mercator.png"].
Proof. vm_compute. repeat split; reflexivity. Qed.


(** C9: whatever the listing holds, at most five keys are selected; a run
    fetches at most five scans (none at all when line 31 raises), and the
    animation it saves has at most five frames. *)
Theorem at_most_five_scans (w : World) (utc_date : string) (st : State) :
  (forall texts, List.length (select_keys utc_date texts) <= 5) /\
  match script w utc_date st with
  | (r, st') =>
      (exists fetched,
          List.length fetched <= 5 /\
          (requests st' = requests st \/
           requests st' =
             requests st ++ index_url utc_date :: List.map file_url fetched)) /\
      match r with
      | inr _ => exists g, animation_at st' = Some g /\ List.length (shown g) <= 5
      | inl _ => True
      end
  end.
Proof.
  assert (Hfive : forall texts, List.length (select_keys utc_date texts) <= 5).
  { intros texts. unfold select_keys. rewrite last_slice_length. lia. }
  assert (Hkeys : List.length (keys_of_run w utc_date st) <= 5).
  { unfold keys_of_run.
    destruct (http_get w (requests st) (index_url utc_date)); [cbn; lia | apply Hfive]. }
  split; [exact Hfive|].
  destruct (script w utc_date st) as [[e|[]] st'] eqn:H.
  - split; [|exact I].
    destruct (script_failure w utc_date st st' e H)
      as [(Hdir & -> & ->)
         |(Hdir & [[Hg ->]
                  |[(done & failing & rest & st_mid & files & Hk & Hd & Hf)
                   |[(Hk & -> & ->)
                    |(files & st1 & a & Hne & Hp & Ho & Hs)]]])].
    + exists []. split; [cbn; lia | now left].
    + exists []. split; [cbn; lia | now right].
    + destruct (stopped_loop w done failing _ st_mid st' files e Hd Hf) as [_ Hr].
      exists (done ++ [failing]). split.
      * rewrite Hk in Hkeys. rewrite !List.length_app in *. cbn in *. lia.
      * right. rewrite Hr. cbn. now rewrite <- app_assoc.
    + exists []. split; [cbn; lia | now right].
    + destruct (stopped_save w _ _ _ _ _ _ _ Hp Hs) as (_ & Hr & _).
      exists (keys_of_run w utc_date st). split; [exact Hkeys|].
      right. rewrite Hr. cbn. now rewrite <- app_assoc.
  - destruct (script_success w utc_date st st' H)
      as (_ & Hne & Hr & m1 & a & p & f & Hw & Hfs & Hs & Ho & _).
    split.
    + exists (keys_of_run w utc_date st). split; [exact Hkeys | now right].
    + exists (encode w a). split.
      * unfold animation_at. now rewrite Hfs, lookup_insert_eq.
      * pose proof (encode_length w a). pose proof (frames_per_key a _ Ho). lia.
Qed.

End RunClaims.

(** ** The claims at the sample inputs *)

Section Witnesses.

(** Frames of 800x800, 800x800, 795x800, 800x800 and 800x802 give five
    frames of 800x800, 800 ms each, looping for ever. *)
Example five_frames_scenario :
  option_map observable
    (animation_at (snd (assemble Sample.calm_world Sample.five_paths Sample.five_frames))) =
  Some (5, [800; 800; 800; 800; 800], 0,
        [(800, 800); (800, 800); (800, 800); (800, 800); (800, 800)]).
Proof. vm_compute. reflexivity. Qed.

(** When the second download fails, the run ends with that error, the first
    frame is on disk, the second scan was requested once and there is no
    animation. *)
Example flaky_run_stops_at_second_scan :
  let run := script Sample.flaky_world "2024_01_15" Sample.empty_disk in
  fst run = inl (HTTPError (file_url "MOB_N0B_2024_01_15_03_15_00")) /\
  requests (snd run) =
    [index_url "2024_01_15"; file_url "MOB_N0B_2024_01_15_03_10_00";
     file_url "MOB_N0B_2024_01_15_03_15_00"] /\
  List.map fst (map_to_list (fs (snd run))) =
    ["nexrad/MOB_N0B_2024_01_15_03_10_00_mercator.png"] /\
  animation_at (snd run) = None.
Proof. vm_compute. repeat split; reflexivity. Qed.

(** When [nexrad] is a regular file, line 31 raises and no request is made. *)
Example folder_is_a_file_stops_the_run :
  script Sample.calm_world "2024_01_15" Sample2.folder_is_a_file =
  (inl (FileExistsError "nexrad"), Sample2.folder_is_a_file).
Proof. vm_compute. reflexivity. Qed.

(** In the first hours of the first day there is no earlier [datetime]. *)
Example cdt_of_utc_overflow :
  cdt_of_utc {| ordinal := 1; hour := 4; minute := 59; second := 59; microsecond := 0 |}
  = inl OverflowError.
Proof. reflexivity. Qed.


Section WithLocalScope.

Local Open Scope Z_scope.


End WithLocalScope.

Lemma five_frames_openable :
  Forall (fun p => holds_image (fs Sample.five_frames !! p)) Sample.five_paths.
Proof.
  repeat constructor; vm_compute; eexists; (split; [reflexivity | discriminate]).
Defined.

Lemma five_paths_nonempty : Sample.five_paths <> [].
Proof. discriminate. Defined.

Lemma frames_share_first_size_witness :
  Sample.five_paths <> [] /\
  Forall (fun p => holds_image (fs Sample.five_frames !! p)) Sample.five_paths /\
  exists a first f,
    assemble Sample.calm_world Sample.five_paths Sample.five_frames =
      save Sample.calm_world GIF_FILENAME a Sample.five_frames /\
    List.map origin (frames a) = Sample.five_paths /\
    head Sample.five_paths = Some first /\ fs Sample.five_frames !! first = Some f /\
    Forall (fun i => size i = file_size f) (frames a) /\
    (forall i g, In i (frames a) -> fs Sample.five_frames !! origin i = Some g ->
                 file_size g <> file_size f ->
                 resizes i = [(file_size f, BILINEAR)] /\
                 resampled i = [(file_size f, BILINEAR)]) /\
    Forall (fun x => size (fst x) = file_size f) (shown (encode Sample.calm_world a)) /\
    (gif_save Sample.calm_world a = Saved ->
     exists st', assemble Sample.calm_world Sample.five_paths Sample.five_frames
                   = (inr tt, st') /\
                 animation_at st' = Some (encode Sample.calm_world a)).
Proof.
  split; [exact five_paths_nonempty|]. split; [exact five_frames_openable|].
  exact (frames_share_first_size Sample.calm_world Sample.five_paths Sample.five_frames
           five_paths_nonempty five_frames_openable).
Defined.


Lemma resize_is_unconditional_witness :
  Sample.five_paths <> [] /\
  Forall (fun p => holds_image (fs Sample.five_frames !! p)) Sample.five_paths /\
  exists a first others p f,
    assemble Sample.calm_world Sample.five_paths Sample.five_frames =
      save Sample.calm_world GIF_FILENAME a Sample.five_frames /\
    frames a = first :: others /\
    head Sample.five_paths = Some p /\ fs Sample.five_frames !! p = Some f /\
    origin first = p /\ size first = file_size f /\ resizes first = [] /\
    List.map origin others = tail Sample.five_paths /\
    Forall (fun i => resizes i = [(size first, BILINEAR)]) others /\
    (gif_save Sample.calm_world a = Saved ->
     exists st', assemble Sample.calm_world Sample.five_paths Sample.five_frames
                   = (inr tt, st') /\
                 animation_at st' = Some (encode Sample.calm_world a)).
Proof.
  split; [exact five_paths_nonempty|]. split; [exact five_frames_openable|].
  exact (resize_is_unconditional Sample.calm_world Sample.five_paths Sample.five_frames
           five_paths_nonempty five_frames_openable).
Defined.

Lemma five_paths_not_output : ~ In GIF_FILENAME Sample.five_paths.
Proof. simpl. intros [H|[H|[H|[H|[H|[]]]]]]; discriminate H. Defined.

Lemma five_frames_assembled :
  assemble Sample.calm_world Sample.five_paths Sample.five_frames =
  (inr tt, snd (assemble Sample.calm_world Sample.five_paths Sample.five_frames)).
Proof. vm_compute. reflexivity. Defined.

Lemma assemble_twice_same_observables_witness :
  ~ In GIF_FILENAME Sample.five_paths /\
  assemble Sample.calm_world Sample.five_paths Sample.five_frames =
    (inr tt, snd (assemble Sample.calm_world Sample.five_paths Sample.five_frames)) /\
  exists st2 a1 a2,
    assemble Sample.calm_world Sample.five_paths
      (snd (assemble Sample.calm_world Sample.five_paths Sample.five_frames)) =
      (inr tt, st2) /\
    animation_at (snd (assemble Sample.calm_world Sample.five_paths Sample.five_frames))
      = Some a1 /\
    animation_at st2 = Some a2 /\
    observable a2 = observable a1.
Proof.
  split; [exact five_paths_not_output|]. split; [exact five_frames_assembled|].
  exact (assemble_twice_same_observables Sample.calm_world Sample.five_paths
           Sample.five_frames _ five_paths_not_output five_frames_assembled).
Defined.

End Witnesses.
(** * Further properties of the script *)

#[local] Arguments String.append : simpl nomatch.

(** ** Texts *)

Section Texts.

Lemma str_app_assoc (a b c : string) : (a +:+ b) +:+ c = a +:+ (b +:+ c).
Proof. induction a as [|x a IH]; simpl; [reflexivity | now rewrite IH]. Qed.

Lemma str_app_nil_r (a : string) : a +:+ EmptyString = a.
Proof. induction a as [|x a IH]; simpl; [reflexivity | now rewrite IH]. Qed.

Lemma str_length_app (a b : string) :
  String.length (a +:+ b) = String.length a + String.length b.
Proof. induction a as [|x a IH]; simpl; [reflexivity | now rewrite IH]. Qed.

Lemma str_app_inj_r (s a b : string) : a +:+ s = b +:+ s -> a = b.
Proof.
  revert b. induction a as [|x a IH]; intros [|y b] H; simpl in H.
  - reflexivity.
  - apply (f_equal String.length) in H. simpl in H. rewrite str_length_app in H. lia.
  - apply (f_equal String.length) in H. simpl in H. rewrite str_length_app in H. lia.
  - inversion H; subst. f_equal. now apply IH.
Qed.

Lemma list_ascii_app (a b : string) :
  list_ascii_of_string (a +:+ b) = list_ascii_of_string a ++ list_ascii_of_string b.
Proof. induction a as [|x a IH]; simpl; [reflexivity | now rewrite IH]. Qed.

Lemma slash_free_app (a b : string) :
  slash_free a -> slash_free b -> slash_free (a +:+ b).
Proof.
  unfold slash_free. rewrite list_ascii_app, List.in_app_iff. tauto.
Qed.

Lemma slash_free_mercator : slash_free "_mercator.png".
Proof.
  unfold slash_free. simpl.
  intros H. repeat (destruct H as [H|H]; [discriminate H|]). exact H.
Qed.

End Texts.

(** ** Frame paths (line 110) *)

Section FramePaths.

Lemma last_component_from_spec (s : string) :
  forall acc,
    slash_free acc ->
    exists dir,
      acc +:+ s = dir +:+ Py.last_component_from s acc /\
      (dir = EmptyString \/ exists d, dir = d +:+ "/") /\
      slash_free (Py.last_component_from s acc).
Proof.
  induction s as [|c s IH]; intros acc Hacc; simpl.
  - exists EmptyString. rewrite str_app_nil_r. auto.
  - destruct (Ascii.eqb c "/") eqn:Ec.
    + apply Ascii.eqb_eq in Ec. subst c.
      destruct (IH EmptyString) as (dir' & Heq & Hdir & Hfree); [intros []|].
      simpl in Heq.
      exists (acc +:+ "/" +:+ dir'). split; [|split; [right|exact Hfree]].
      * rewrite !str_app_assoc. simpl. now rewrite <- Heq.
      * destruct Hdir as [->|[d ->]].
        -- exists acc. now rewrite str_app_nil_r.
        -- exists (acc +:+ "/" +:+ d). now rewrite !str_app_assoc.
    + apply Ascii.eqb_neq in Ec.
      destruct (IH (acc +:+ String c EmptyString)) as (dir & Heq & Hdir & Hfree).
      { apply slash_free_app; [exact Hacc|].
        unfold slash_free. simpl. intros [H|[]]. now apply Ec. }
      exists dir. rewrite str_app_assoc in Heq. simpl in Heq. auto.
Qed.

Lemma split_slash_last_free (key : string) : slash_free (Py.split_slash_last key).
Proof.
  destruct (last_component_from_spec key EmptyString) as (_ & _ & _ & H);
    [intros [] | exact H].
Qed.

(** The absolute-path case of [os.path.join] never applies to a frame. *)
Lemma out_png_of_value (key : string) :
  out_png_of key = FOLDER +:+ "/" +:+ Py.split_slash_last key +:+ "_mercator.png".
Proof.
  unfold out_png_of, Py.os_path_join.
  pose proof (split_slash_last_free key) as Hfree.
  destruct (Py.startswith (Py.split_slash_last key +:+ "_mercator.png") "/") eqn:E;
    [|reflexivity].
  exfalso. apply startswith_spec in E. destruct E as [rest Hrest].
  destruct (Py.split_slash_last key) as [|c name]; simpl in Hrest; [discriminate|].
  inversion Hrest; subst. apply Hfree. simpl. now left.
Qed.

(** X1: [key.split('/')[-1]] is the end of the key after its last slash:
    the key is a directory part, empty or ending in a slash, followed by a
    name without slash. *)
Theorem split_slash_last_is_last_component (key : string) :
  exists dir,
    key = dir +:+ Py.split_slash_last key /\
    (dir = EmptyString \/ exists d, dir = d +:+ "/") /\
    slash_free (Py.split_slash_last key).
Proof.
  destruct (last_component_from_spec key EmptyString) as (dir & Heq & Hdir & Hfree);
    [intros []|].
  exists dir. simpl in Heq. auto.
Qed.

(** X2: every frame is a file directly inside [FOLDER], named after the last
    component of its key: whatever the key, the path is
    [nexrad/<name>_mercator.png] and the part after [nexrad/] has no slash. *)
Theorem frames_live_in_folder (key : string) :
  out_png_of key = FOLDER +:+ "/" +:+ (Py.split_slash_last key +:+ "_mercator.png") /\
  slash_free (Py.split_slash_last key +:+ "_mercator.png") /\
  Py.startswith (out_png_of key) "nexrad/" = true.
Proof.
  split; [apply out_png_of_value|]. split.
  - apply slash_free_app; [apply split_slash_last_free | apply slash_free_mercator].
  - rewrite out_png_of_value. apply startswith_spec. eexists. reflexivity.
Qed.

(** X3: two keys are rendered to the same file exactly when their last
    components are equal; keys that differ only in what precedes the last
    slash overwrite each other's frame. *)
Theorem frames_collide_on_last_component (k1 k2 : string) :
  out_png_of k1 = out_png_of k2 <-> Py.split_slash_last k1 = Py.split_slash_last k2.
Proof.
  rewrite !out_png_of_value. split.
  - intros H. simpl in H. inversion H as [H'].
    now apply str_app_inj_r in H'.
  - now intros ->.
Qed.

End FramePaths.

(** ** More on the selection of keys (lines 43-44) *)

Section Selection.

Lemma str_le_refl (a : string) : Py.str_le a a.
Proof. destruct (str_le_total a a); assumption. Qed.

Lemma str_le_antisym (a b : string) : Py.str_le a b -> Py.str_le b a -> a = b.
Proof. apply String.leb_antisym. Qed.

Lemma sorted_head_least (x : string) (l : list string) (y : string) :
  StronglySorted Py.str_le (x :: l) -> In y (x :: l) -> Py.str_le x y.
Proof.
  intros Hs [<-|Hin]; [apply str_le_refl|].
  inversion Hs as [|? ? _ Hall]; subst.
  rewrite List.Forall_forall in Hall. now apply Hall.
Qed.

(** An ascending list is determined by its elements. *)
Lemma ascending_unique (l1 : list string) :
  forall l2,
    StronglySorted Py.str_le l1 -> StronglySorted Py.str_le l2 ->
    Permutation l1 l2 -> l1 = l2.
Proof.
  induction l1 as [|x l1 IH]; intros l2 H1 H2 HP.
  - apply Permutation.Permutation_nil in HP. now subst.
  - destruct l2 as [|y l2].
    { symmetry in HP. now apply Permutation.Permutation_nil in HP. }
    assert (x = y) as <-.
    { apply str_le_antisym.
      - apply (sorted_head_least x l1 y H1).
        apply (Permutation.Permutation_in y (Permutation.Permutation_sym HP)). now left.
      - apply (sorted_head_least y l2 x H2).
        apply (Permutation.Permutation_in x HP). now left. }
    f_equal. apply IH.
    + now inversion H1.
    + now inversion H2.
    + now apply Permutation.Permutation_cons_inv in HP.
Qed.

Lemma filter_perm {A : Type} (f : A -> bool) (l l' : list A) :
  Permutation l l' -> Permutation (List.filter f l) (List.filter f l').
Proof.
  induction 1 as [|x l l' _ IH|x y l|l l' l'' _ IH1 _ IH2]; simpl.
  - constructor.
  - destruct (f x); [now constructor | exact IH].
  - destruct (f x), (f y); try reflexivity. apply perm_swap.
  - now transitivity (List.filter f l').
Qed.

Lemma ascending_app_le (l1 l2 : list string) :
  StronglySorted Py.str_le (l1 ++ l2) ->
  forall a b, In a l1 -> In b l2 -> Py.str_le a b.
Proof.
  induction l1 as [|x l1 IH]; intros Hs a b Ha Hb; [destruct Ha|].
  simpl in Hs. inversion Hs as [|? ? Hs' Hall]; subst.
  destruct Ha as [<-|Ha].
  - rewrite List.Forall_forall in Hall. apply Hall, List.in_app_iff. now right.
  - now apply (IH Hs' a b).
Qed.

(** X4: a date token that is the beginning of another selects at least the
    keys the longer one selects; [2024_01] matches every day of that month,
    the filter being a plain prefix test. *)
Theorem shorter_date_matches_more (utc_date longer : string) (texts : list string) :
  Py.startswith longer utc_date = true ->
  incl (matching_keys longer texts) (matching_keys utc_date texts).
Proof.
  intros Hpre k Hk. apply startswith_spec in Hpre. destruct Hpre as [more ->].
  unfold matching_keys in *. rewrite List.filter_In in *.
  destruct Hk as [Hin Hk]. split; [exact Hin|].
  apply startswith_spec in Hk. destruct Hk as [rest ->].
  apply startswith_spec. exists (more +:+ rest).
  unfold key_prefix. now rewrite !str_app_assoc.
Qed.

(** X5: the selected keys do not depend on the order in which the listing
    gives them. *)
Theorem selection_ignores_listing_order (utc_date : string) (texts texts' : list string) :
  Permutation texts texts' ->
  select_keys utc_date texts = select_keys utc_date texts'.
Proof.
  intros HP. unfold select_keys. f_equal.
  apply ascending_unique; try apply sorted_ordered.
  rewrite !sorted_perm. unfold matching_keys. now apply filter_perm.
Qed.

(** X6: the keys left out are the smallest ones: the sorted matching keys
    are the dropped keys followed by the selected ones, nothing dropped is
    greater than anything selected, and keys are dropped only beyond the
    fifth. *)
Theorem dropped_keys_are_oldest (utc_date : string) (texts : list string) :
  exists dropped,
    Py.sorted (matching_keys utc_date texts) = dropped ++ select_keys utc_date texts /\
    List.length dropped = List.length (matching_keys utc_date texts) - 5 /\
    forall a b, In a dropped -> In b (select_keys utc_date texts) -> Py.str_le a b.
Proof.
  unfold select_keys, Py.last_slice.
  set (sm := Py.sorted (matching_keys utc_date texts)).
  exists (firstn (List.length sm - 5) sm).
  pose proof (firstn_skipn (List.length sm - 5) sm) as Hsplit.
  split; [now symmetry|]. split.
  - rewrite List.length_firstn.
    unfold sm. rewrite (Permutation_length (sorted_perm _)). lia.
  - apply ascending_app_le. rewrite Hsplit. apply sorted_ordered.
Qed.

End Selection.

(** ** More on the display time (line 99) *)

Section DisplayTimeFields.

Local Open Scope Z_scope.

Lemma divmod_unique (a b q r : Z) :
  0 <= r < b -> a = b * q + r -> a / b = q /\ a mod b = r.
Proof.
  intros Hr Ha. split.
  - symmetry. apply (Z.div_unique a b q r); [now left | exact Ha].
  - symmetry. apply (Z.mod_unique a b q r); [now left | exact Ha].
Qed.

(** The value of [cdt_of_utc], field by field. *)
Lemma cdt_of_utc_value (dt : datetime) :
  well_formed dt ->
  cdt_of_utc dt =
    if ((ordinal dt =? 1) && (hour dt <? 5))%bool then inl OverflowError
    else inr {| ordinal := if hour dt <? 5 then ordinal dt - 1 else ordinal dt;
                hour := if hour dt <? 5 then hour dt + 19 else hour dt - 5;
                minute := minute dt; second := second dt;
                microsecond := microsecond dt |}.
Proof.
  intros Hwf. rewrite (cdt_of_utc_fields dt Hwf). cbv zeta.
  destruct Hwf as (Ho & Hh & Hm & Hs & Hus). unfold MAXORDINAL in *.
  set (sod := hour dt * 3600 + minute dt * 60 + second dt).
  destruct (Z.ltb_spec (hour dt) 5) as [Hlt|Hge].
  - destruct (divmod_unique (sod + 68400) 86400 0 (sod + 68400)) as [-> ->];
      [subst sod; lia | lia |].
    destruct (divmod_unique (sod + 68400) 3600 (hour dt + 19)
                (minute dt * 60 + second dt)) as [-> ->]; [lia | subst sod; lia |].
    destruct (divmod_unique (minute dt * 60 + second dt) 60 (minute dt) (second dt))
      as [-> ->]; [lia | lia |].
    rewrite Z.add_0_r, andb_true_r.
    destruct (Z.eqb_spec (ordinal dt) 1) as [->|Hne]; [reflexivity|].
    replace (0 <? ordinal dt - 1) with true by (symmetry; apply Z.ltb_lt; lia).
    replace (ordinal dt - 1 <=? 3652059) with true by (symmetry; apply Z.leb_le; lia).
    reflexivity.
  - destruct (divmod_unique (sod + 68400) 86400 1 (sod - 18000)) as [-> ->];
      [subst sod; lia | lia |].
    destruct (divmod_unique (sod - 18000) 3600 (hour dt - 5)
                (minute dt * 60 + second dt)) as [-> ->]; [lia | subst sod; lia |].
    destruct (divmod_unique (minute dt * 60 + second dt) 60 (minute dt) (second dt))
      as [-> ->]; [lia | lia |].
    rewrite andb_false_r.
    replace (ordinal dt - 1 + 1) with (ordinal dt) by lia.
    replace (0 <? ordinal dt) with true by (symmetry; apply Z.ltb_lt; lia).
    replace (ordinal dt <=? 3652059) with true by (symmetry; apply Z.leb_le; lia).
    reflexivity.
Qed.

(** X7: the display time keeps minute, second and microsecond; its hour is
    the source hour plus 19 modulo 24, and its day is the day before exactly
    when the source hour is before 5. *)
Theorem display_time_fields (utc_dt : datetime) :
  well_formed utc_dt ->
  2 <= ordinal utc_dt \/ 5 <= hour utc_dt ->
  exists cdt_dt,
    cdt_of_utc utc_dt = inr cdt_dt /\
    minute cdt_dt = minute utc_dt /\
    second cdt_dt = second utc_dt /\
    microsecond cdt_dt = microsecond utc_dt /\
    hour cdt_dt = (hour utc_dt + 19) mod 24 /\
    ordinal cdt_dt = ordinal utc_dt - (if hour utc_dt <? 5 then 1 else 0).
Proof.
  intros Hwf Hlate. rewrite (cdt_of_utc_value utc_dt Hwf).
  destruct Hwf as (Ho & Hh & Hm & Hs & Hus).
  destruct (Z.ltb_spec (hour utc_dt) 5) as [Hlt|Hge].
  - destruct (Z.eqb_spec (ordinal utc_dt) 1) as [H1|Hne]; [lia|].
    eexists. split; [reflexivity|]. cbn [ordinal hour minute second microsecond].
    rewrite Z.mod_small by lia. auto.
  - rewrite andb_false_r.
    eexists. split; [reflexivity|]. cbn [ordinal hour minute second microsecond].
    destruct (divmod_unique (hour utc_dt + 19) 24 1 (hour utc_dt - 5)) as [_ ->];
      [lia | lia |].
    repeat split; lia.
Qed.

(** X8: on a well-formed time the conversion raises exactly in the first
    five hours of day 1, and [OverflowError] is the only exception it has. *)
Theorem display_time_overflow (utc_dt : datetime) :
  well_formed utc_dt ->
  (cdt_of_utc utc_dt = inl OverflowError <-> ordinal utc_dt = 1 /\ hour utc_dt < 5) /\
  (forall e, cdt_of_utc utc_dt = inl e -> e = OverflowError).
Proof.
  intros Hwf. rewrite (cdt_of_utc_value utc_dt Hwf).
  destruct (Z.eqb_spec (ordinal utc_dt) 1) as [H1|Hne];
    destruct (Z.ltb_spec (hour utc_dt) 5) as [Hlt|Hge]; cbn [andb].
  - split; [tauto | congruence].
  - split; [split; [discriminate | lia] | discriminate].
  - split; [split; [discriminate | lia] | discriminate].
  - split; [split; [discriminate | lia] | discriminate].
Qed.

(** X9: two different source times never get the same display time. *)
Theorem display_time_injective (a b c : datetime) :
  well_formed a -> well_formed b ->
  cdt_of_utc a = inr c -> cdt_of_utc b = inr c ->
  a = b.
Proof.
  intros Ha Hb. rewrite (cdt_of_utc_value a Ha), (cdt_of_utc_value b Hb).
  destruct Ha as (_ & Hha & _). destruct Hb as (_ & Hhb & _).
  destruct ((ordinal a =? 1) && (hour a <? 5))%bool; [discriminate|].
  destruct ((ordinal b =? 1) && (hour b <? 5))%bool; [discriminate|].
  intros Hac Hbc. rewrite <- Hbc in Hac. clear Hbc.
  destruct a as [oa ha ma sa ua], b as [ob hb mb sb ub].
  cbn [ordinal hour minute second microsecond] in *.
  destruct (Z.ltb_spec ha 5), (Z.ltb_spec hb 5);
    inversion Hac; subst; f_equal; lia.
Qed.

End DisplayTimeFields.

(** ** More on the assembly (lines 123-139) *)

#[local] Arguments String.append : simpl never.

Section AssemblyEdges.

Variable w : World.

Lemma open_frames_missing (p : string) (rest found : list string) :
  forall base images st,
    Forall (fun q => holds_image (fs st !! q)) found ->
    fs st !! p = None ->
    open_frames (found ++ p :: rest) base images st = (inl (FileNotFoundError p), st).
Proof.
  induction found as [|q found IH]; intros base images st Hall Hp.
  - cbn. unfold bind, Image_open. now rewrite Hp.
  - inversion Hall as [|? ? (f & Hf & Hnp) Hall']; subst.
    cbn. unfold bind. rewrite (Image_open_image q st f Hf Hnp).
    destruct base as [bs|]; now apply IH.
Qed.

(** X10: when a frame file is missing, the assembly raises
    [FileNotFoundError] for the first missing path of the list and changes
    nothing, whatever comes after it. *)
Theorem assemble_stops_at_missing_frame
    (found : list string) (p : string) (rest : list string) (st : State) :
  Forall (fun q => holds_image (fs st !! q)) found ->
  fs st !! p = None ->
  assemble w (found ++ p :: rest) st = (inl (FileNotFoundError p), st).
Proof.
  intros Hall Hp. unfold assemble, bind.
  now rewrite (open_frames_missing p rest found None [] st Hall Hp).
Qed.

(** X11: the assembly makes no request and touches no file but the one at
    the animation path.  When it returns, the encoded animation is at the
    animation path whatever was there.  When it raises, either nothing has
    changed, or [save] raised after it had opened the file and no animation
    is left at the animation path. *)
Theorem assemble_writes_only_the_animation (paths : list string) (st : State) :
  match assemble w paths st with
  | (r, st') =>
      requests st' = requests st /\
      (forall p, p <> GIF_FILENAME -> fs st' !! p = fs st !! p) /\
      match r with
      | inl e => st' = st \/
                 (animation_at st' = None /\ exists a, gif_save w a = Broken e)
      | inr _ => exists a, gif_save w a = Saved /\ animation_at st' = Some (encode w a)
      end
  end.
Proof.
  unfold assemble, bind.
  destruct (open_frames paths None [] st) as [[e|images] st1] eqn:Ho;
    apply open_frames_state in Ho; subst st1.
  - auto.
  - destruct images as [|first others]; cbn [raise]; [auto|].
    set (a := {| frames := first :: others; duration := 800; loop := 0 |}).
    pose proof (save_spec w GIF_FILENAME a st) as Hs.
    destruct (gif_save w a) as [|e|e] eqn:Hg.
    + rewrite Hs. cbn [fs requests]. split; [reflexivity|]. split.
      * intros p Hp. now apply lookup_insert_ne, not_eq_sym.
      * exists a. split; [exact Hg | apply animation_at_saved].
    + rewrite Hs. auto.
    + destruct Hs as (st' & -> & Hr & Hfs & Hp).
      split; [exact Hr|]. split; [exact Hfs|]. right. split; [|now exists a].
      unfold animation_at. destruct Hp as [-> | ->]; reflexivity.
Qed.

End AssemblyEdges.

(** ** More on the run *)

Section RunEdges.

Variable w : World.

Lemma sublist_map {A B : Type} (f : A -> B) (l1 l2 : list A) :
  l1 `sublist_of` l2 -> List.map f l1 `sublist_of` List.map f l2.
Proof.
  induction 1 as [|x l1 l2 _ IH|x l1 l2 _ IH]; cbn [List.map].
  - constructor.
  - now apply sublist_skip.
  - now apply sublist_cons.
Qed.

Lemma encode_Forall (P : Image -> Prop) (a : Animation) :
  Forall P (frames a) -> Forall (fun x => P (fst x)) (shown (encode w a)).
Proof.
  unfold encode. destruct (frames a) as [|first others]; intros H; cbn [shown].
  - constructor.
  - inversion H; subst. now apply encode_from_Forall.
Qed.

Lemma encode_loops (a : Animation) : loops (encode w a) = loop a.
Proof. unfold encode. now destruct (frames a). Qed.

(** X12: when line 31 passes and the listing request succeeds but no key is
    selected, the run ends with [IndexError] right after the listing
    request: nothing is fetched and no file is written. *)
Theorem no_matching_key_raises (utc_date : string) (st : State) (listing : string) :
  fs st !! FOLDER = None ->
  http_get w (requests st) (index_url utc_date) = inr listing ->
  select_keys utc_date (key_texts w listing) = [] ->
  script w utc_date st = (inl IndexError, listed utc_date st).
Proof.
  intros Hdir Hg Hk. rewrite script_unfold, Hdir, Hg, Hk. reflexivity.
Qed.

(** X13: once line 31 has passed, the listing request has succeeded, at
    least one key is selected and every iteration of the loop has succeeded,
    no frame can fail to open: the run ends as the [save] of one frame per
    key ends, and it ends well exactly when that save does. *)
Theorem run_ends_as_save_ends
    (utc_date : string) (st st1 : State) (listing : string) (files : list string) :
  fs st !! FOLDER = None ->
  http_get w (requests st) (index_url utc_date) = inr listing ->
  select_keys utc_date (key_texts w listing) <> [] ->
  process_keys w (select_keys utc_date (key_texts w listing)) [] (listed utc_date st)
    = (inr files, st1) ->
  exists a,
    script w utc_date st = save w GIF_FILENAME a st1 /\
    List.map origin (frames a) =
      rev (List.map out_png_of (select_keys utc_date (key_texts w listing))) /\
    duration a = 800 /\ loop a = 0 /\
    (fst (script w utc_date st) = inr tt <-> gif_save w a = Saved).
Proof.
  intros Hdir Hg Hne Hp.
  rewrite script_unfold, Hdir, Hg, Hp.
  pose proof (process_keys_spec w _ _ _ _ _ Hp) as (-> & Hw & _). cbn [app].
  destruct (assemble_rendered w _ _ st1 Hne Hw) as (a & p & f & Ha & Ho & Hd & Hl & _).
  exists a. rewrite Ha. repeat (split; [assumption || reflexivity|]).
  pose proof (save_spec w GIF_FILENAME a st1) as Hs.
  destruct (gif_save w a) as [|e|e].
  - rewrite Hs. cbn. tauto.
  - rewrite Hs. cbn. split; discriminate.
  - destruct Hs as (st' & -> & _). cbn. split; discriminate.
Qed.

(** X14: whatever happens, a run leaves every file alone that is neither
    the animation nor the frame of one of its keys. *)
Theorem run_writes_only_its_files (utc_date : string) (st : State) (p : string) :
  p <> GIF_FILENAME ->
  (forall key, In key (keys_of_run w utc_date st) -> out_png_of key <> p) ->
  fs (snd (script w utc_date st)) !! p = fs st !! p.
Proof.
  intros Hgif Hkeys.
  destruct (script w utc_date st) as [[e|[]] st'] eqn:H; cbn [snd].
  - destruct (script_failure w utc_date st st' e H)
      as [(Hdir & -> & ->)
         |(Hdir & [[Hg ->]
                  |[(done & failing & rest & st_mid & files & Hk & Hd & Hf)
                   |[(Hk & -> & ->)
                    |(files & st1 & a & Hne & Hp & Ho & Hs)]]])];
      try reflexivity.
    + destruct (stopped_loop w done failing _ st_mid st' files e Hd Hf) as [Hw _].
      apply (frames_written_elsewhere done _ _ p Hw).
      intros key Hin. apply Hkeys. rewrite Hk. apply List.in_app_iff. now left.
    + destruct (stopped_save w _ _ _ _ _ _ _ Hp Hs) as (_ & _ & _ & Hfs & _).
      exact (Hfs p Hgif Hkeys).
  - destruct (script_success w utc_date st st' H)
      as (_ & _ & _ & m1 & a & q & f & Hw & Hfs & _).
    rewrite Hfs, lookup_insert_ne by now apply not_eq_sym.
    now apply (frames_written_elsewhere _ _ _ p Hw).
Qed.


End RunEdges.

(** ** The animation of a run *)

Section RunAnimation.

Variable w : World.

(** X16: a run that ends well has handed [save] the frames of the selected
    keys in the reverse of the order of the keys, with duration 800 and loop
    0; the frames its animation shows are among them, in that reversed
    order, and are all of them when no frame equals the one before it. *)
Theorem run_animation_is_reversed (utc_date : string) (st st' : State) :
  script w utc_date st = (inr tt, st') ->
  exists a,
    animation_at st' = Some (encode w a) /\
    List.map origin (frames a) = rev (List.map out_png_of (keys_of_run w utc_date st)) /\
    duration a = 800 /\ loop a = 0 /\ loops (encode w a) = 0 /\
    List.map (fun x => origin (fst x)) (shown (encode w a))
      `sublist_of` rev (List.map out_png_of (keys_of_run w utc_date st)) /\
    (distinct_neighbours w (frames a) ->
     List.map (fun x => origin (fst x)) (shown (encode w a)) =
       rev (List.map out_png_of (keys_of_run w utc_date st))).
Proof.
  intros H.
  destruct (script_success w utc_date st st' H)
    as (_ & Hne & _ & m1 & a & p & f & _ & Hfs & _ & Ho & Hd & Hl & _).
  exists a. split; [unfold animation_at; now rewrite Hfs, lookup_insert_eq|].
  split; [exact Ho|]. split; [exact Hd|]. split; [exact Hl|].
  split; [now rewrite encode_loops|]. split.
  - rewrite <- Ho, <- (List.map_map fst origin).
    apply sublist_map, encode_sublist.
  - intros Hdist. rewrite <- Ho. unfold encode.
    destruct (frames a) as [|first others]; [reflexivity|]. cbn [shown].
    rewrite (encode_from_distinct w others first _ _ Hdist).
    cbn [List.map fst]. f_equal. rewrite List.map_map. reflexivity.
Qed.

(** X17: in a run that ends well the size of every frame of the animation is
    the size of the frame file of the greatest key, the one rendered last. *)
Theorem run_size_is_set_by_last_key (utc_date : string) (st st' : State) :
  script w utc_date st = (inr tt, st') ->
  exists g earlier last_key f,
    keys_of_run w utc_date st = earlier ++ [last_key] /\
    animation_at st' = Some g /\
    fs st' !! out_png_of last_key = Some f /\
    Forall (fun x => size (fst x) = file_size f) (shown g).
Proof.
  intros H.
  destruct (script_success w utc_date st st' H)
    as (_ & Hne & _ & m1 & a & p & f & _ & Hfs & _ & _ & _ & _ & Hp & Hf & Hsz).
  destruct (exists_last Hne) as (earlier & last_key & Hk).
  rewrite Hk, List.map_app, List.rev_app_distr in Hp. cbn in Hp.
  inversion Hp; subst p.
  exists (encode w a), earlier, last_key, f. split; [exact Hk|].
  split; [unfold animation_at; now rewrite Hfs, lookup_insert_eq|]. split.
  - rewrite Hfs, lookup_insert_ne by (apply not_eq_sym, out_png_not_gif). exact Hf.
  - exact (encode_Forall w (fun i => size i = file_size f) a Hsz).
Qed.

End RunAnimation.

(** ** The time text of a scan (lines 96-97) *)

#[local] Arguments String.append : simpl nomatch.

Section TimeText.

Lemma split_from_nonempty (sep s : string) :
  forall skip acc, 1 <= List.length (PyText.split_from sep s skip acc).
Proof.
  induction s as [|c s IH]; intros skip acc; cbn [PyText.split_from].
  - cbn [List.length]. lia.
  - destruct skip as [|k]; [|apply IH].
    destruct (String.prefix sep (String c s)); [cbn [List.length]; lia | apply IH].
Qed.

Lemma split_without_separator (sep s : string) :
  String.prefix sep EmptyString = false ->
  forall acc,
    PyText.occurs sep s = false ->
    PyText.split_from sep s 0 acc = [acc +:+ s].
Proof.
  intros Hsep. induction s as [|c s IH]; intros acc Hocc.
  - simpl. now rewrite str_app_nil_r.
  - cbn [PyText.occurs] in Hocc. apply orb_false_iff in Hocc. destruct Hocc as [Hp Ho].
    cbn [PyText.split_from]. rewrite Hp, (IH _ Ho), str_app_assoc. reflexivity.
Qed.

Lemma split_with_separator (sep s : string) :
  String.prefix sep EmptyString = false ->
  forall acc,
    PyText.occurs sep s = true ->
    2 <= List.length (PyText.split_from sep s 0 acc).
Proof.
  intros Hsep. induction s as [|c s IH]; intros acc Hocc.
  - cbn [PyText.occurs] in Hocc. congruence.
  - cbn [PyText.occurs] in Hocc. cbn [PyText.split_from].
    destruct (String.prefix sep (String c s)).
    + cbn [List.length]. pose proof (split_from_nonempty sep s (String.length sep - 1) "").
      lia.
    + apply IH. exact Hocc.
Qed.

(** X18: the time text cannot be taken exactly when the units text does not
    contain [since]: then, and only then, [split("since")[1]] raises
    [IndexError]; no other exception comes from these two lines. *)
Theorem time_text_needs_since (utc_time_str : string) :
  (iso_text_of_units utc_time_str = inl IndexError <->
   PyText.occurs "since" utc_time_str = false) /\
  (forall e, iso_text_of_units utc_time_str = inl e -> e = IndexError).
Proof.
  unfold iso_text_of_units, PyText.split.
  destruct (PyText.occurs "since" utc_time_str) eqn:Hocc.
  - pose proof (split_with_separator "since" utc_time_str eq_refl "" Hocc) as Hlen.
    destruct (PyText.split_from "since" utc_time_str 0 "") as [|a [|b l]];
      cbn [List.length] in Hlen; try lia.
    cbn [nth_error]. split; [split; discriminate | discriminate].
  - rewrite (split_without_separator "since" utc_time_str eq_refl "" Hocc).
    cbn [nth_error]. split; [tauto | congruence].
Qed.

Lemma prefix_since_before_Z (x : string) :
  String.prefix "since" (x +:+ "Z") = String.prefix "since" x.
Proof.
  destruct (String.prefix "since" x) eqn:E.
  - apply (startswith_spec x "since") in E. destruct E as [r ->].
    apply (startswith_spec _ "since"). exists (r +:+ "Z"). now rewrite str_app_assoc.
  - destruct (String.prefix "since" (x +:+ "Z")) eqn:E'; [|reflexivity].
    apply (startswith_spec _ "since") in E'. destruct E' as [r Hr].
    assert (Hx : exists r', x = "since" +:+ r').
    { destruct x as [|c1 [|c2 [|c3 [|c4 [|c5 x]]]]]; simpl in Hr;
        inversion Hr; subst. now exists x. }
    apply (startswith_spec x "since") in Hx. unfold Py.startswith in Hx. congruence.
Qed.

Lemma occurs_since_before_Z (t : string) :
  PyText.occurs "since" (t +:+ "Z") = PyText.occurs "since" t.
Proof.
  induction t as [|c t IH]; [reflexivity|].
  change (String c t +:+ "Z") with (String c (t +:+ "Z")).
  cbn [PyText.occurs]. rewrite IH. f_equal.
  apply (prefix_since_before_Z (String c t)).
Qed.

Lemma rstrip_before_Z (x : string) : PyText.rstrip (x +:+ "Z") = x +:+ "Z".
Proof.
  induction x as [|c x IH]; [reflexivity|].
  change (String c x +:+ "Z") with (String c (x +:+ "Z")).
  cbn [PyText.rstrip]. rewrite IH.
  destruct (x +:+ "Z") eqn:E; [|reflexivity].
  destruct x; discriminate E.
Qed.

Lemma remove_char_absent (c : ascii) (t : string) :
  ~ In c (list_ascii_of_string t) -> PyText.remove_char c t = t.
Proof.
  induction t as [|d t IH]; intros Hno; [reflexivity|].
  cbn [PyText.remove_char]. destruct (Ascii.eqb d c) eqn:E.
  - apply Ascii.eqb_eq in E. exfalso. apply Hno. simpl. now left.
  - rewrite IH; [reflexivity|]. intros Hin. apply Hno. simpl. now right.
Qed.

Lemma remove_char_app (c : ascii) (a b : string) :
  PyText.remove_char c (a +:+ b) = PyText.remove_char c a +:+ PyText.remove_char c b.
Proof.
  induction a as [|d a IH]; [reflexivity|].
  change (String d a +:+ b) with (String d (a +:+ b)).
  cbn [PyText.remove_char]. destruct (Ascii.eqb d c); rewrite IH; reflexivity.
Qed.

(** X19: from units of the form [seconds since <t>Z] the two lines take
    exactly [<t>], for every plain text [t] that has no [Z], does not contain
    [since] and does not begin with white space. *)
Theorem time_text_of_seconds_since (t : string) :
  ascii_text t ->
  PyText.occurs "since" t = false ->
  ~ In "Z"%char (list_ascii_of_string t) ->
  PyText.lstrip t = t ->
  iso_text_of_units ("seconds since " +:+ t +:+ "Z") = inr t.
Proof.
  intros _ Hsince HZ Hstrip.
  unfold iso_text_of_units, PyText.split.
  assert (Hsplit : PyText.split_from "since" ("seconds since " +:+ t +:+ "Z") 0 "" =
                   ["seconds "; " " +:+ t +:+ "Z"]).
  { change (PyText.split_from "since" ("seconds since " +:+ t +:+ "Z") 0 "")
      with ("seconds " :: PyText.split_from "since" (t +:+ "Z") 0 " ").
    rewrite split_without_separator; [reflexivity | reflexivity |].
    now rewrite occurs_since_before_Z. }
  rewrite Hsplit. cbn [nth_error]. f_equal.
  unfold PyText.strip.
  assert (Hl : PyText.lstrip (" " +:+ t +:+ "Z") = t +:+ "Z").
  { change (PyText.lstrip (" " +:+ t +:+ "Z")) with (PyText.lstrip (t +:+ "Z")).
    destruct t as [|c t]; [reflexivity|].
    change (String c t +:+ "Z") with (String c (t +:+ "Z")).
    cbn [PyText.lstrip] in *. destruct (PyText.is_space c); [|reflexivity].
    exfalso. apply (f_equal String.length) in Hstrip. cbn [String.length] in Hstrip.
    assert (Hle : forall s, String.length (PyText.lstrip s) <= String.length s).
    { induction s as [|d s IHs]; cbn [PyText.lstrip String.length]; [lia|].
      destruct (PyText.is_space d); cbn [String.length]; lia. }
    specialize (Hle t). lia. }
  rewrite Hl, rstrip_before_Z, remove_char_app, (remove_char_absent _ t HZ).
  cbn. apply str_app_nil_r.
Qed.

End TimeText.

(** ** The further properties at the sample inputs *)

#[local] Arguments String.append : simpl never.

Section MoreWitnesses.

Lemma winter_scan_well_formed : well_formed Sample.winter_scan.
Proof. unfold well_formed, MAXORDINAL; simpl; lia. Defined.

Lemma winter_scan_late :
  (2 <= ordinal Sample.winter_scan \/ 5 <= hour Sample.winter_scan)%Z.
Proof. left; simpl; lia. Defined.

Lemma shorter_date_matches_more_witness :
  Py.startswith "2024_01_15" "2024_01" = true /\
  incl (matching_keys "2024_01_15" Sample.two_keys) (matching_keys "2024_01" Sample.two_keys).
Proof.
  split; [reflexivity|].
  exact (shorter_date_matches_more "2024_01" "2024_01_15" Sample.two_keys eq_refl).
Defined.

Lemma selection_ignores_listing_order_witness :
  Permutation Sample.two_keys (rev Sample.two_keys) /\
  select_keys "2024_01_15" Sample.two_keys = select_keys "2024_01_15" (rev Sample.two_keys).
Proof.
  assert (HP : Permutation Sample.two_keys (rev Sample.two_keys)) by apply perm_swap.
  split; [exact HP|].
  exact (selection_ignores_listing_order "2024_01_15" _ _ HP).
Defined.

Lemma display_time_fields_witness :
  well_formed Sample.winter_scan /\
  (2 <= ordinal Sample.winter_scan \/ 5 <= hour Sample.winter_scan)%Z /\
  exists cdt_dt,
    cdt_of_utc Sample.winter_scan = inr cdt_dt /\
    minute cdt_dt = minute Sample.winter_scan /\
    second cdt_dt = second Sample.winter_scan /\
    microsecond cdt_dt = microsecond Sample.winter_scan /\
    hour cdt_dt = ((hour Sample.winter_scan + 19) mod 24)%Z /\
    ordinal cdt_dt =
      (ordinal Sample.winter_scan - (if (hour Sample.winter_scan <? 5)%Z then 1 else 0))%Z.
Proof.
  split; [exact winter_scan_well_formed|]. split; [exact winter_scan_late|].
  exact (display_time_fields Sample.winter_scan winter_scan_well_formed winter_scan_late).
Defined.

Lemma display_time_overflow_witness :
  well_formed Sample.winter_scan /\
  (cdt_of_utc Sample.winter_scan = inl OverflowError <->
   ordinal Sample.winter_scan = 1%Z /\ (hour Sample.winter_scan < 5)%Z) /\
  (forall e, cdt_of_utc Sample.winter_scan = inl e -> e = OverflowError).
Proof.
  split; [exact winter_scan_well_formed|].
  exact (display_time_overflow Sample.winter_scan winter_scan_well_formed).
Defined.

Lemma display_time_injective_witness :
  well_formed Sample.winter_scan /\
  cdt_of_utc Sample.winter_scan =
    inr {| ordinal := 738899; hour := 22; minute := 10; second := 0; microsecond := 0 |} /\
  Sample.winter_scan = Sample.winter_scan.
Proof.
  split; [exact winter_scan_well_formed|].
  assert (H : cdt_of_utc Sample.winter_scan =
              inr {| ordinal := 738899; hour := 22; minute := 10; second := 0;
                     microsecond := 0 |}) by reflexivity.
  split; [exact H|].
  exact (display_time_injective Sample.winter_scan Sample.winter_scan _
           winter_scan_well_formed winter_scan_well_formed H H).
Defined.

Lemma assemble_stops_at_missing_frame_witness :
  Forall (fun q => holds_image (fs Sample.five_frames !! q))
    ["nexrad/s1_mercator.png"; "nexrad/s2_mercator.png"] /\
  fs Sample.five_frames !! "nexrad/s9_mercator.png" = None /\
  assemble Sample.calm_world Sample2.paths_with_gap Sample.five_frames =
    (inl (FileNotFoundError "nexrad/s9_mercator.png"), Sample.five_frames).
Proof.
  assert (Hall : Forall (fun q => holds_image (fs Sample.five_frames !! q))
                   ["nexrad/s1_mercator.png"; "nexrad/s2_mercator.png"])
    by (repeat constructor; vm_compute; eexists; (split; [reflexivity | discriminate])).
  assert (Hp : fs Sample.five_frames !! "nexrad/s9_mercator.png" = None)
    by (vm_compute; reflexivity).
  split; [exact Hall|]. split; [exact Hp|].
  exact (assemble_stops_at_missing_frame Sample.calm_world _ _ ["nexrad/s4_mercator.png"]
           _ Hall Hp).
Defined.

Lemma no_matching_key_raises_witness :
  fs Sample.empty_disk !! FOLDER = None /\
  http_get Sample.calm_world (requests Sample.empty_disk) (index_url "2024_01_16") =
    inr (index_url "2024_01_16") /\
  select_keys "2024_01_16" (key_texts Sample.calm_world (index_url "2024_01_16")) = [] /\
  script Sample.calm_world "2024_01_16" Sample.empty_disk =
    (inl IndexError, listed "2024_01_16" Sample.empty_disk).
Proof.
  split; [reflexivity|]. split; [reflexivity|]. split; [reflexivity|].
  exact (no_matching_key_raises Sample.calm_world "2024_01_16" Sample.empty_disk
           (index_url "2024_01_16") eq_refl eq_refl eq_refl).
Defined.

Lemma calm_loop_succeeds :
  process_keys Sample.calm_world
    (select_keys "2024_01_15" (key_texts Sample.calm_world (index_url "2024_01_15"))) []
    (listed "2024_01_15" Sample.empty_disk) =
  (inr (List.map out_png_of Sample.two_keys),
   snd (process_keys Sample.calm_world Sample.two_keys []
          (listed "2024_01_15" Sample.empty_disk))).
Proof. vm_compute. reflexivity. Defined.

Lemma calm_keys_selected :
  select_keys "2024_01_15" (key_texts Sample.calm_world (index_url "2024_01_15")) <> [].
Proof. vm_compute. discriminate. Defined.

Lemma run_ends_as_save_ends_witness :
  fs Sample.empty_disk !! FOLDER = None /\
  http_get Sample.calm_world (requests Sample.empty_disk) (index_url "2024_01_15") =
    inr (index_url "2024_01_15") /\
  select_keys "2024_01_15" (key_texts Sample.calm_world (index_url "2024_01_15")) <> [] /\
  exists a,
    script Sample.calm_world "2024_01_15" Sample.empty_disk =
      save Sample.calm_world GIF_FILENAME a
        (snd (process_keys Sample.calm_world Sample.two_keys []
                (listed "2024_01_15" Sample.empty_disk))) /\
    List.map origin (frames a) =
      rev (List.map out_png_of
             (select_keys "2024_01_15"
                (key_texts Sample.calm_world (index_url "2024_01_15")))) /\
    duration a = 800 /\ loop a = 0 /\
    (fst (script Sample.calm_world "2024_01_15" Sample.empty_disk) = inr tt <->
     gif_save Sample.calm_world a = Saved).
Proof.
  split; [reflexivity|]. split; [reflexivity|]. split; [exact calm_keys_selected|].
  exact (run_ends_as_save_ends Sample.calm_world "2024_01_15" Sample.empty_disk _
           (index_url "2024_01_15") _ eq_refl eq_refl calm_keys_selected
           calm_loop_succeeds).
Defined.

Lemma notes_is_no_frame :
  forall key,
    In key (keys_of_run Sample.calm_world "2024_01_15" Sample.empty_disk) ->
    out_png_of key <> "notes.txt".
Proof.
  intros key Hin. vm_compute in Hin.
  destruct Hin as [<-|[<-|[]]]; vm_compute; discriminate.
Defined.

Lemma notes_is_not_the_animation : "notes.txt" <> GIF_FILENAME.
Proof. discriminate. Defined.

Lemma run_writes_only_its_files_witness :
  "notes.txt" <> GIF_FILENAME /\
  (forall key,
      In key (keys_of_run Sample.calm_world "2024_01_15" Sample.empty_disk) ->
      out_png_of key <> "notes.txt") /\
  fs (snd (script Sample.calm_world "2024_01_15" Sample.empty_disk)) !! "notes.txt" =
    fs Sample.empty_disk !! "notes.txt".
Proof.
  split; [exact notes_is_not_the_animation|]. split; [exact notes_is_no_frame|].
  exact (run_writes_only_its_files Sample.calm_world "2024_01_15" Sample.empty_disk
           "notes.txt" notes_is_not_the_animation notes_is_no_frame).
Defined.

Lemma calm_run_ends_well :
  script Sample.calm_world "2024_01_15" Sample.empty_disk =
  (inr tt, snd (script Sample.calm_world "2024_01_15" Sample.empty_disk)).
Proof. vm_compute. reflexivity. Defined.

Lemma run_animation_is_reversed_witness :
  script Sample.calm_world "2024_01_15" Sample.empty_disk =
    (inr tt, snd (script Sample.calm_world "2024_01_15" Sample.empty_disk)) /\
  exists a,
    animation_at (snd (script Sample.calm_world "2024_01_15" Sample.empty_disk)) =
      Some (encode Sample.calm_world a) /\
    List.map origin (frames a) =
      rev (List.map out_png_of
             (keys_of_run Sample.calm_world "2024_01_15" Sample.empty_disk)) /\
    duration a = 800 /\ loop a = 0 /\ loops (encode Sample.calm_world a) = 0 /\
    List.map (fun x => origin (fst x)) (shown (encode Sample.calm_world a))
      `sublist_of` rev (List.map out_png_of
                          (keys_of_run Sample.calm_world "2024_01_15" Sample.empty_disk)) /\
    (distinct_neighbours Sample.calm_world (frames a) ->
     List.map (fun x => origin (fst x)) (shown (encode Sample.calm_world a)) =
       rev (List.map out_png_of
              (keys_of_run Sample.calm_world "2024_01_15" Sample.empty_disk))).
Proof.
  split; [exact calm_run_ends_well|].
  exact (run_animation_is_reversed Sample.calm_world "2024_01_15" Sample.empty_disk _
           calm_run_ends_well).
Defined.

Lemma run_size_is_set_by_last_key_witness :
  script Sample.calm_world "2024_01_15" Sample.empty_disk =
    (inr tt, snd (script Sample.calm_world "2024_01_15" Sample.empty_disk)) /\
  exists g earlier last_key f,
    keys_of_run Sample.calm_world "2024_01_15" Sample.empty_disk = earlier ++ [last_key] /\
    animation_at (snd (script Sample.calm_world "2024_01_15" Sample.empty_disk)) = Some g /\
    fs (snd (script Sample.calm_world "2024_01_15" Sample.empty_disk))
      !! out_png_of last_key = Some f /\
    Forall (fun x => size (fst x) = file_size f) (shown g).
Proof.
  split; [exact calm_run_ends_well|].
  exact (run_size_is_set_by_last_key Sample.calm_world "2024_01_15" Sample.empty_disk _
           calm_run_ends_well).
Defined.

Lemma iso_text_plain : ascii_text "2024-01-15T03:10:00".
Proof. unfold ascii_text. simpl. repeat constructor. Defined.

Lemma iso_text_has_no_Z : ~ In "Z"%char (list_ascii_of_string "2024-01-15T03:10:00").
Proof.
  simpl. intros H. repeat (destruct H as [H|H]; [discriminate H|]). exact H.
Defined.

Lemma time_text_of_seconds_since_witness :
  ascii_text "2024-01-15T03:10:00" /\
  PyText.occurs "since" "2024-01-15T03:10:00" = false /\
  ~ In "Z"%char (list_ascii_of_string "2024-01-15T03:10:00") /\
  PyText.lstrip "2024-01-15T03:10:00" = "2024-01-15T03:10:00" /\
  iso_text_of_units ("seconds since " +:+ "2024-01-15T03:10:00" +:+ "Z") =
    inr "2024-01-15T03:10:00".
Proof.
  split; [exact iso_text_plain|]. split; [reflexivity|].
  split; [exact iso_text_has_no_Z|]. split; [reflexivity|].
  exact (time_text_of_seconds_since "2024-01-15T03:10:00"
           iso_text_plain eq_refl iso_text_has_no_Z eq_refl).
Defined.

End MoreWitnesses.
